(** * Oil-spill simulation: the time-stepping driver and the configuration reader

    A shallow embedding of [find_and_plot] (src/Simulation/solver.py) and of
    [readConfig] (config.py), with the properties of the design document
    stated and proved over it.

    Python values are modelled as follows.
    - Numbers (times, oil amounts) live in a type [num] that comes with the
      operations the code uses ([PyNum]); nothing is assumed about them, so
      the results hold for IEEE doubles as well as for exact rationals.
      [QNum] is the instance over [Q] used to run the model.
    - The list [mesh.cells] is a [list cell]; a reference to a cell object is
      its position in that list.
    - Exceptions are the [Raise] branch of [result]; calls to code outside
      the driver (plotting, directory creation, the mesh methods) are
      recorded, in order, in a trace of [event]s. *)

From Stdlib Require Import ZArith QArith Qround String Ascii List Lia Permutation.
From Stdlib Require Import DecimalString Lqa.
From stdpp Require Import base list.
Import ListNotations.

Local Open Scope string_scope.
Local Open Scope list_scope.
Local Open Scope Z_scope.

(** ** Exceptions and results *)

Inductive exn : Type :=
| FileNotFoundError
| KeyError (key : string)
| ValueError
| IndexError
| TypeError
| AttributeError
| ZeroDivisionError
| UnboundLocalError.

Inductive result (A : Type) : Type :=
| Ok (a : A)
| Raise (e : exn).
Arguments Ok {A} a.
Arguments Raise {A} e.

Definition is_ok {A} (r : result A) : bool :=
  match r with Ok _ => true | Raise _ => false end.

(** ** Numbers and builtins *)

Class PyNum (num : Type) : Type := {
  fzero : num;                          (* the literal 0 *)
  fadd : num -> num -> num;             (* x + y *)
  fsub : num -> num -> num;             (* x - y *)
  fmul : num -> num -> num;             (* x * y *)
  fdiv : num -> num -> num;             (* x / y, divisor known to be non-zero *)
  of_int : Z -> num;                    (* an int used as a number *)
  feqb : num -> num -> bool;            (* x == y *)
  fround : Z -> num -> num;             (* round(x, ndigits) *)
  float_of_string : string -> option num; (* float(s); None is ValueError *)
  str_of_num : num -> string            (* str(x) inside an f-string *)
}.

Class PyBuiltins : Type := {
  int_of_string : string -> option Z;   (* int(s); None is ValueError *)
  str_of_int : Z -> string;             (* str(i) inside an f-string *)
  path_stem : string -> string;         (* os.path.splitext(os.path.basename(p))[0] *)
  path_join : list string -> string     (* os.path.join(...) *)
}.

(** The one-character string ["\n"]. *)
Definition newline : string := String (ascii_of_nat 10) EmptyString.

(** Truthiness of an optional string argument ([None] and [""] are falsy). *)
Definition truthy_path (p : option string) : bool :=
  match p with
  | None => false
  | Some s => negb (String.eqb s "")
  end.

(** [s.split(sep)] for a one-character separator. *)
Fixpoint split_on (sep : ascii) (s : string) : list string :=
  match s with
  | EmptyString => [EmptyString]
  | String c rest =>
      if Ascii.eqb c sep then EmptyString :: split_on sep rest
      else match split_on sep rest with
           | [] => [String c EmptyString]
           | w :: ws => String c w :: ws
           end
  end.

(** Python's [seq[i]] for an int [i]: negative indices count from the end. *)
Definition py_index (len : nat) (i : Z) : option nat :=
  if (0 <=? i) && (i <? Z.of_nat len) then Some (Z.to_nat i)
  else if (i <? 0) && (- Z.of_nat len <=? i) then Some (Z.to_nat (Z.of_nat len + i))
  else None.

(** ** Cells *)

Inductive cell_kind : Type := Vertex | Line | Triangle | OtherCell.

Record cell (num : Type) : Type := mkCell {
  kind : cell_kind;
  index : Z;
  vertices : list (num * num);
  area : num;
  midpoint : num * num;
  neighbors : list nat;
  oil_amount : num;
  oil_change : num
}.
Arguments mkCell {num}.
Arguments kind {num}.
Arguments index {num}.
Arguments vertices {num}.
Arguments area {num}.
Arguments midpoint {num}.
Arguments neighbors {num}.
Arguments oil_amount {num}.
Arguments oil_change {num}.

(** [not isinstance(cell, cls.Vertex) and not isinstance(cell, cls.Line)] *)
Definition transport_capable {num} (c : cell num) : bool :=
  match kind c with
  | Vertex | Line => false
  | Triangle | OtherCell => true
  end.

Definition set_oil_amount {num} (c : cell num) (a : num) : cell num :=
  mkCell (kind c) (index c) (vertices c) (area c) (midpoint c) (neighbors c)
         a (oil_change c).

Definition set_oil_change {num} (c : cell num) (d : num) : cell num :=
  mkCell (kind c) (index c) (vertices c) (area c) (midpoint c) (neighbors c)
         (oil_amount c) d.

(** The methods of [Mesh] that the driver calls.  Their module is not part of
    the driver; here they are arbitrary functions on the cell list, which is
    all the driver relies on. *)
Class MeshOps (num : Type) : Type := {
  cell_factory : Type;
  load_mesh : string -> cell_factory -> result (list (cell num));
  calculate : list (cell num) -> nat -> list (cell num);
  initial_oil_distribution : list (cell num) -> list num -> list (cell num);
  calculate_change : list (cell num) -> nat -> num -> list (cell num);
  cells_within_area : list (cell num) -> list num -> list num -> list nat
}.

(** ** Events and the driver monad *)

Inductive event (num : Type) : Type :=
| EMakedirs (path : string)
| ELoadMesh (path : string)
| ECalculate (pos : nat)
| EReadFile (path : string)
| EInitialOil (start_point : list num)
| EWithinArea (x_area y_area : list num)
| EPlot (cairo : bool) (cells : list (cell num)) (time : num) (folder : string)
| ECalcChange (pos : nat) (dt : num)
| ECommit (pos : nat)
| EWriteFile (path : string) (lines : list string)
| EMakeVideo (folder : string) (write_frequency intervals : Z).
Arguments EMakedirs {num}.
Arguments ELoadMesh {num}.
Arguments ECalculate {num}.
Arguments EReadFile {num}.
Arguments EInitialOil {num}.
Arguments EWithinArea {num}.
Arguments EPlot {num}.
Arguments ECalcChange {num}.
Arguments ECommit {num}.
Arguments EWriteFile {num}.
Arguments EMakeVideo {num}.

(** A computation yields the events it emitted, oldest first, and either a
    value or the exception that stopped it. *)
Definition M (num A : Type) : Type := (list (event num) * result A)%type.

Definition ret {num A} (a : A) : M num A := ([], Ok a).
Definition raise {num A} (e : exn) : M num A := ([], Raise e).
Definition emit {num} (ev : event num) : M num unit := ([ev], Ok tt).
Definition lift {num A} (r : result A) : M num A := ([], r).

Definition bind {num A B} (m : M num A) (k : A -> M num B) : M num B :=
  match m with
  | (tr, Ok a) => let '(tr', r) := k a in (tr ++ tr', r)
  | (tr, Raise e) => (tr, Raise e)
  end.

Notation "'do' x <- m ; k" := (bind m (fun x => k))
  (at level 10, x name, m at level 100, k at level 200).
Notation "'do' ( x , y ) <- m ; k" := (bind m (fun xy => let '(x, y) := xy in k))
  (at level 10, x name, y name, m at level 100, k at level 200).
Notation "'run' m ; k" := (bind m (fun _ => k))
  (at level 10, m at level 100, k at level 200).

Definition trace_of {num A} (m : M num A) : list (event num) := fst m.
Definition value_of {num A} (m : M num A) : result A := snd m.

(** [for x in xs: body], the loop state threaded through the iterations. *)
Fixpoint for_each {num X S} (body : X -> S -> M num S) (xs : list X) (s : S)
  : M num S :=
  match xs with
  | [] => ret s
  | x :: xs' => do s' <- body x s; for_each body xs' s'
  end.

(** ** The driver: [find_and_plot] *)

(** The insertion-ordered dict [oil_area_time]: assigning to a key that is
    already present (equal under [==]) replaces its value in place. *)
Fixpoint dict_set {num} `{!PyNum num} (d : list (num * num)) (k v : num)
  : list (num * num) :=
  match d with
  | [] => [(k, v)]
  | (k', v') :: d' =>
      if feqb k' k then (k', v) :: d' else (k', v') :: dict_set d' k v
  end.

Fixpoint dict_get {num} `{!PyNum num} (d : list (num * num)) (k : num)
  : option num :=
  match d with
  | [] => None
  | (k', v') :: d' => if feqb k' k then Some v' else dict_get d' k
  end.

Section Driver.
Context {num : Type} `{!PyNum num} `{!PyBuiltins} `{!MeshOps num}.

(** [open(path, "r").readlines()] on the file system the run starts in. *)
Variable read_lines : string -> result (list string).

Local Abbreviation cells_t := (list (cell num)).

(** The positions a [for cell in cells] loop visits. *)
Definition positions (cells : cells_t) : list nat := seq 0 (length cells).

(** solver.py 87-89 *)
Definition calculate_body (p : nat) (cells : cells_t) : M num cells_t :=
  match cells !! p with
  | Some c =>
      if transport_capable c
      then run emit (ECalculate p); ret (calculate cells p)
      else ret cells
  | None => ret cells
  end.

(** solver.py 122-124: one iteration of the compute loop *)
Definition compute_body (dt : num) (p : nat) (cells : cells_t) : M num cells_t :=
  match cells !! p with
  | Some c =>
      if transport_capable c
      then run emit (ECalcChange p dt); ret (calculate_change cells p dt)
      else ret cells
  | None => ret cells
  end.

(** solver.py 126-129: one iteration of the commit loop *)
Definition commit_cell (c : cell num) : cell num :=
  set_oil_change (set_oil_amount c (fadd (oil_amount c) (oil_change c))) fzero.

Definition commit_body (p : nat) (cells : cells_t) : M num cells_t :=
  match cells !! p with
  | Some c =>
      if transport_capable c
      then run emit (ECommit p); ret (<[p := commit_cell c]> cells)
      else ret cells
  | None => ret cells
  end.

Definition compute_phase (dt : num) (order : list nat) (cells : cells_t)
  : M num cells_t :=
  for_each (compute_body dt) order cells.

Definition commit_phase (cells : cells_t) : M num cells_t :=
  for_each commit_body (positions cells) cells.

(** One step with the compute loop visiting the cells in [order]. *)
Definition step_in_order (order : list nat) (dt : num) (cells : cells_t)
  : M num cells_t :=
  do cells1 <- compute_phase dt order cells;
  commit_phase cells1.

(** solver.py 122-129 *)
Definition step (dt : num) (cells : cells_t) : M num cells_t :=
  step_in_order (positions cells) dt cells.

(** solver.py 97-98: [index, oil_amount = line.split(";")] and
    [cells[int(index)].oil_amount = float(oil_amount)]; the right-hand side
    is evaluated before the subscript. *)
Definition restore_line (cells : cells_t) (line : string) : result cells_t :=
  match split_on ";" line with
  | [index_s; oil_amount_s] =>
      match float_of_string oil_amount_s with
      | None => Raise ValueError
      | Some a =>
          match int_of_string index_s with
          | None => Raise ValueError
          | Some i =>
              match py_index (length cells) i with
              | None => Raise IndexError
              | Some p => Ok (alter (fun c => set_oil_amount c a) p cells)
              end
          end
      end
  | _ => Raise ValueError
  end.

Fixpoint restore_lines (lines : list string) (cells : cells_t) : result cells_t :=
  match lines with
  | [] => Ok cells
  | line :: rest =>
      match restore_line cells line with
      | Ok cells' => restore_lines rest cells'
      | Raise e => Raise e
      end
  end.

(** solver.py 92-100 *)
Definition seed_or_restore (restartFile : option string) (start_time : num)
    (start_point : list num) (cells : cells_t) : M num (num * cells_t) :=
  if truthy_path restartFile then
    let path := default "" restartFile in
    run emit (EReadFile path);
    do lines <- lift (read_lines path);
    match lines with
    | [] => raise IndexError
    | first :: rest =>
        match float_of_string first with
        | None => raise ValueError
        | Some t =>
            do cells' <- lift (restore_lines rest cells);
            ret (t, cells')
        end
    end
  else
    run emit (EInitialOil start_point);
    ret (start_time, initial_oil_distribution cells start_point).

(** solver.py 102-107; yields the possibly reset start time and [dt]. *)
Definition time_step (start_time end_time : num) (intervals : Z)
  : result (num * num) :=
  if feqb start_time end_time then
    let start_time := fzero in
    if intervals =? 0 then Raise ZeroDivisionError
    else Ok (start_time,
             fround 6 (fdiv (fsub end_time start_time) (of_int intervals)))
  else
    if intervals =? 0 then Raise ZeroDivisionError
    else Ok (start_time,
             fround 6 (fdiv (fsub end_time start_time) (of_int intervals))).

(** solver.py 133-135; [area] lists the cells of the set in the order the
    set iterates them, which is the same at every step. *)
Definition oil_in_area (area : list nat) (cells : cells_t) : num :=
  fold_left (fun acc p =>
               match cells !! p with
               | Some c => fadd acc (oil_amount c)
               | None => acc
               end) area fzero.

Record loop_state : Type := mkLoop {
  ls_cells : cells_t;
  ls_time : num;
  ls_oil : list (num * num)
}.

(** solver.py 114-120 and 138-143, without the [print] *)
Definition plot (fast : Z) (cells : cells_t) (time : num) (folder : string)
  : M num unit :=
  emit (EPlot (fast =? 1) cells time folder).

(** solver.py 113-136: the body of [for steps in range(intervals)] *)
Definition loop_body (write_frequency fast : Z) (dt : num) (area : list nat)
    (images_folder : string) (steps : nat) (st : loop_state)
  : M num loop_state :=
  run (if write_frequency =? 0 then raise ZeroDivisionError
       else if Z.of_nat steps mod write_frequency =? 0
            then plot fast (ls_cells st) (ls_time st) images_folder
            else ret tt);
  do cells1 <- step dt (ls_cells st);
  let current_time := fround 4 (fadd (ls_time st) dt) in
  ret (mkLoop cells1 current_time
         (dict_set (ls_oil st) current_time (oil_in_area area cells1))).

Definition step_loop (write_frequency fast : Z) (dt : num) (area : list nat)
    (images_folder : string) (intervals : Z) (st : loop_state)
  : M num loop_state :=
  for_each (loop_body write_frequency fast dt area images_folder)
           (seq 0 (Z.to_nat intervals)) st.

(** solver.py 153-155 *)
Definition restart_line (c : cell num) : string :=
  (str_of_int (index c) ++ ";" ++ str_of_num (oil_amount c) ++ newline)%string.

Definition restart_lines (end_time : num) (cells : cells_t) : list string :=
  (str_of_num end_time ++ newline)%string :: map restart_line cells.

Definition find_and_plot (mesh_path : string) (start_time end_time : num)
    (intervals write_frequency : Z) (start_point : list num)
    (factory : cell_factory) (x_area y_area : list num)
    (restartFile toml_file : option string) (fast : Z)
  : M num (list (num * num)) :=
  let root_folder := "results" in
  run emit (EMakedirs root_folder);
  let base_name :=
    if truthy_path toml_file then path_stem (default "" toml_file)
    else "default_experiment" in
  let experiment_folder :=
    path_join [root_folder; (base_name ++ "_results")%string] in
  run emit (EMakedirs experiment_folder);
  run emit (EMakedirs (path_join [experiment_folder; "input"]));
  let images_folder := path_join [experiment_folder; "images"] in
  run emit (EMakedirs images_folder);
  run emit (ELoadMesh mesh_path);
  do cells <- lift (load_mesh mesh_path factory);
  do cells <- for_each calculate_body (positions cells) cells;
  do (start_time, cells) <-
    seed_or_restore restartFile start_time start_point cells;
  do (start_time, dt) <- lift (time_step start_time end_time intervals);
  let current_time := start_time in
  run emit (EWithinArea x_area y_area);
  let cells_in_area := remove_dups (cells_within_area cells x_area y_area) in
  do st <- step_loop write_frequency fast dt cells_in_area images_folder
             intervals (mkLoop cells current_time []);
  run plot fast (ls_cells st) (ls_time st) images_folder;
  (* the [print] after the plot reads [steps], unbound if the loop never ran *)
  run (if intervals <=? 0 then raise UnboundLocalError else ret tt);
  let restart_filename :=
    if truthy_path toml_file
    then (path_stem (default "" toml_file) ++ "_restartFile.txt")%string
    else "restartFile.txt" in
  run emit (EWriteFile
              (path_join [experiment_folder; "input/"; restart_filename])
              (restart_lines end_time (ls_cells st)));
  run (if write_frequency =? 0 then ret tt
       else emit (EMakeVideo (experiment_folder ++ "/images")%string
                             write_frequency intervals));
  ret (ls_oil st).

End Driver.

(** ** An executable instance: exact rationals and decimal strings *)

Module QInstance.

Definition is_space (c : ascii) : bool :=
  let n := nat_of_ascii c in
  (Nat.eqb n 32 || Nat.eqb n 10 || Nat.eqb n 9 || Nat.eqb n 13)%bool.

Fixpoint lstrip (s : string) : string :=
  match s with
  | String c rest => if is_space c then lstrip rest else s
  | EmptyString => EmptyString
  end.

Fixpoint rstrip (s : string) : string :=
  match s with
  | String c rest =>
      match rstrip rest with
      | EmptyString => if is_space c then EmptyString else String c EmptyString
      | r => String c r
      end
  | EmptyString => EmptyString
  end.

Definition strip (s : string) : string := rstrip (lstrip s).

Definition all_digits (s : string) : bool :=
  forallb (fun c => let n := nat_of_ascii c in
                    (Nat.leb 48 n && Nat.leb n 57)%bool)
          (list_ascii_of_string s).

Definition nat_of_digits (s : string) : option Z :=
  if (all_digits s && negb (String.eqb s ""))%bool
  then option_map Z.of_uint (NilEmpty.uint_of_string s)
  else None.

(** Signed decimal integers, surrounding white space allowed. *)
Definition parse_int (s : string) : option Z :=
  match strip s with
  | String "-" rest => option_map Z.opp (nat_of_digits rest)
  | String "+" rest => nat_of_digits rest
  | t => nat_of_digits t
  end.

Definition print_int (z : Z) : string := NilZero.string_of_int (Z.to_int z).

(** Unsigned decimal literals [ddd] or [ddd.ddd]. *)
Definition parse_udecimal (s : string) : option Q :=
  match split_on "." s with
  | [ip] => option_map inject_Z (nat_of_digits ip)
  | [ip; fp] =>
      match nat_of_digits ip, nat_of_digits fp with
      | Some i, Some f =>
          Some (inject_Z i + inject_Z f / inject_Z (10 ^ Z.of_nat (String.length fp)))%Q
      | _, _ => None
      end
  | _ => None
  end.

Definition parse_float (s : string) : option Q :=
  match strip s with
  | String "-" rest => option_map Qopp (parse_udecimal rest)
  | String "+" rest => parse_udecimal rest
  | t => parse_udecimal t
  end.

(** The least [k <= fuel_start] with [den] dividing [10^k], if any. *)
Fixpoint decimals (fuel : nat) (k : Z) (den : Z) : option Z :=
  if (10 ^ k) mod den =? 0 then Some k
  else match fuel with
       | O => None
       | S fuel' => decimals fuel' (k + 1) den
       end.

Fixpoint zeros (n : nat) : string :=
  match n with
  | O => ""
  | S n' => String "0" (zeros n')
  end.

Definition pad_zeros (width : nat) (s : string) : string :=
  (zeros (width - String.length s) ++ s)%string.

(** Decimal rendering of a rational with a finite expansion, in the style
    of [str] on a float ([100.0], [-0.25]). *)
Definition print_float (q : Q) : string :=
  let r := Qred q in
  match decimals 30 0 (Z.pos (Qden r)) with
  | Some k =>
      let scaled := Z.abs (Qnum r) * (10 ^ k / Z.pos (Qden r)) in
      let ip := scaled / 10 ^ k in
      let fp := scaled mod 10 ^ k in
      let sign := if Qnum r <? 0 then "-" else "" in
      let frac := if k =? 0 then "0"
                  else pad_zeros (Z.to_nat k) (print_int fp) in
      (sign ++ print_int ip ++ "." ++ frac)%string
  | None => (print_int (Qnum r) ++ "/" ++ print_int (Z.pos (Qden r)))%string
  end.

(** Round to the nearest integer, ties to even. *)
Definition round_half_even (q : Q) : Z :=
  let f := Qfloor q in
  let twice := (2 * (q - inject_Z f))%Q in
  match (twice ?= 1)%Q with
  | Lt => f
  | Gt => f + 1
  | Eq => if Z.even f then f else f + 1
  end.

Definition round_digits (ndigits : Z) (q : Q) : Q :=
  if 0 <=? ndigits
  then (inject_Z (round_half_even (q * inject_Z (10 ^ ndigits)))
        / inject_Z (10 ^ ndigits))%Q
  else (inject_Z (round_half_even (q / inject_Z (10 ^ (- ndigits))))
        * inject_Z (10 ^ (- ndigits)))%Q.

#[export] Instance QNum : PyNum Q := {|
  fzero := 0%Q;
  fadd := Qplus;
  fsub := Qminus;
  fmul := Qmult;
  fdiv := Qdiv;
  of_int := inject_Z;
  feqb := Qeq_bool;
  fround := fun n q => Qred (round_digits n q);
  float_of_string := parse_float;
  str_of_num := print_float
|}.

Definition last_segment (sep : ascii) (s : string) : string :=
  List.last (split_on sep s) EmptyString.

(** The part of the last path segment before its last dot. *)
Definition stem (p : string) : string :=
  let base := last_segment "/" p in
  match rev (split_on "." base) with
  | [] | [_] => base
  | _ :: front => String.concat "." (rev front)
  end.

Fixpoint join (segs : list string) : string :=
  match segs with
  | [] => ""
  | [sg] => sg
  | sg :: rest =>
      if String.eqb (last_segment "/" sg) ""
      then (sg ++ join rest)%string
      else (sg ++ "/" ++ join rest)%string
  end.

#[export] Instance Builtins : PyBuiltins := {|
  int_of_string := parse_int;
  str_of_int := print_int;
  path_stem := stem;
  path_join := join
|}.

End QInstance.

(** ** The transport operator of the design document *)

(** What the transport operator may read of a cell: its geometry and its
    [oil_amount], not the transient [oil_change]. *)
Record reading (num : Type) : Type := mkReading {
  r_vertices : list (num * num);
  r_area : num;
  r_midpoint : num * num;
  r_amount : num
}.
Arguments mkReading {num}.
Arguments r_vertices {num}.
Arguments r_area {num}.
Arguments r_midpoint {num}.
Arguments r_amount {num}.

Definition read_cell {num} (c : cell num) : reading num :=
  mkReading (vertices c) (area c) (midpoint c) (oil_amount c).

Section Transport.
Context {num : Type} `{!PyNum num}.

(** The pluggable kernel: the flux into the first cell from the second. *)
Variable flux : reading num -> reading num -> num.

Definition inflow (cells : list (cell num)) (c : cell num) : num :=
  fold_left (fun acc q =>
               match cells !! q with
               | Some n => fadd acc (flux (read_cell c) (read_cell n))
               | None => acc
               end) (neighbors c) fzero.

(** Modelled from the spec: [Mesh.calculate_change(cell, dt)], whose module
    (src/Simulation/mesh.py) is not among the sources.  It reads the
    [oil_amount] of the cell and of its neighbours, and writes only the
    cell's [oil_change]: the exchange with the neighbours, scaled by [dt]
    and normalised by the cell's [area]. *)
Definition calculate_change_spec (cells : list (cell num)) (p : nat) (dt : num)
  : list (cell num) :=
  match cells !! p with
  | Some c =>
      <[p := set_oil_change c (fmul (fdiv dt (area c)) (inflow cells c))]> cells
  | None => cells
  end.

End Transport.

(** Sums over all transport-capable cells, exact arithmetic. *)
Definition sum_oil_change (cells : list (cell Q)) : Q :=
  fold_right (fun c acc => if transport_capable c then (oil_change c + acc)%Q else acc)
             0%Q cells.

Definition weighted_oil_change (cells : list (cell Q)) : Q :=
  fold_right (fun c acc =>
                if transport_capable c then (area c * oil_change c + acc)%Q else acc)
             0%Q cells.

(** The kernel "proportional to the oil-amount differential". *)
Definition differential (a b : reading Q) : Q := (r_amount b - r_amount a)%Q.

(** A closed region: every cell is a triangle, neighbours are cells of the
    mesh, listed once, never the cell itself, and the relation is symmetric. *)
Definition closed_mesh (cells : list (cell Q)) : Prop :=
  (forall p c, cells !! p = Some c ->
     kind c = Triangle /\ NoDup (neighbors c) /\ ~ (area c == 0)%Q /\
     forall q, q ∈ neighbors c -> q <> p /\
       exists n, cells !! q = Some n /\ p ∈ neighbors n).

(** ** A small mesh to run the driver on *)

Module Example.
Import QInstance.

Definition tri (i : Z) (a : Q) (mx : Q) (ns : list nat) (amount : Q) : cell Q :=
  mkCell Triangle i [] a (mx, 0%Q) ns amount 0%Q.

Definition vertex (i : Z) : cell Q :=
  mkCell Vertex i [] 0%Q (0%Q, 0%Q) [] 0%Q 0%Q.

(** A vertex followed by a strip of three triangles. *)
Definition strip : list (cell Q) :=
  [ vertex 0; tri 1 1 (1 # 10) [2%nat] 0; tri 2 1 (2 # 10) [1%nat; 3%nat] 0;
    tri 3 1 (3 # 10) [2%nat] 0 ].

(** Two triangles of unequal area sharing an edge. *)
Definition pair : list (cell Q) :=
  [ tri 0 1 (1 # 10) [1%nat] 1; tri 1 2 (2 # 10) [0%nat] 0 ].

Definition in_range (r : list Q) (x : Q) : bool :=
  match r with
  | [lo; hi] => (Qle_bool lo x && Qle_bool x hi)%bool
  | _ => false
  end.

Definition within (cells : list (cell Q)) (x_area y_area : list Q) : list nat :=
  List.filter
    (fun p => match cells !! p with
              | Some c =>
                  match kind c with
                  | Triangle => (in_range x_area (fst (midpoint c))
                                 && in_range y_area (snd (midpoint c)))%bool
                  | _ => false
                  end
              | None => false
              end) (seq 0 (length cells)).

(** All the oil, one unit, on the triangles whose midpoint abscissa is the
    first coordinate of [start_point]. *)
Definition seed (cells : list (cell Q)) (start_point : list Q) : list (cell Q) :=
  map (fun c => if transport_capable c
                then set_oil_amount c
                       (if Qeq_bool (fst (midpoint c)) (hd 0%Q start_point)
                        then 1%Q else 0%Q)
                else c) cells.

#[export] Instance mesh_ops : MeshOps Q := {|
  cell_factory := unit;
  load_mesh := fun path _ =>
    if String.eqb path "strip.msh" then Ok strip
    else if String.eqb path "pair.msh" then Ok pair
    else Raise FileNotFoundError;
  calculate := fun cells _ => cells;
  initial_oil_distribution := seed;
  calculate_change := calculate_change_spec differential;
  cells_within_area := within
|}.

Definition no_files (path : string) : result (list string) :=
  Raise FileNotFoundError.

Definition restart_txt : list string :=
  [ ("0.5" ++ newline)%string; ("1;0.25" ++ newline)%string;
    ("-1;0.75" ++ newline)%string ].

Definition files (path : string) : result (list string) :=
  if String.eqb path "restart.txt" then Ok restart_txt
  else if String.eqb path "bad.txt"
       then Ok [ ("0.5" ++ newline)%string; ("1;0.25" ++ newline)%string;
                 ("7;0.75" ++ newline)%string ]
       else Raise FileNotFoundError.

End Example.

(** ** The configuration reader: [readConfig] *)

Module Config.

(** A float, by the value it denotes. *)
Inductive fval : Type :=
| FFin (q : Q)
| FInf (negative : bool)
| FNan.

(** The values [toml.load] produces (dates left out). *)
#[warnings="-register-all"]
Inductive tval : Type :=
| TStr (s : string)
| TInt (z : Z)
| TFloat (f : fval)
| TBool (b : bool)
| TArr (items : list tval)
| TTab (entries : list (string * tval)).

Definition table : Type := list (string * tval).

Fixpoint lookup (key : string) (t : table) : option tval :=
  match t with
  | [] => None
  | (k, v) :: t' => if String.eqb k key then Some v else lookup key t'
  end.

(** [bool(v)], with [None] for Python's [None]. *)
Definition truthy (v : option tval) : bool :=
  match v with
  | None => false
  | Some (TStr s) => negb (String.eqb s "")
  | Some (TInt z) => negb (z =? 0)
  | Some (TFloat (FFin q)) => negb (Qeq_bool q 0)
  | Some (TFloat _) => true
  | Some (TBool b) => b
  | Some (TArr items) => match items with [] => false | _ => true end
  | Some (TTab entries) => match entries with [] => false | _ => true end
  end.

(** [d[key]] *)
Definition getitem (d : tval) (key : string) : result tval :=
  match d with
  | TTab entries =>
      match lookup key entries with
      | Some v => Ok v
      | None => Raise (KeyError key)
      end
  | _ => Raise TypeError
  end.

(** [d.get(key)]: [None] when the key is absent. *)
Definition get (d : tval) (key : string) : result (option tval) :=
  match d with
  | TTab entries => Ok (lookup key entries)
  | _ => Raise AttributeError
  end.

(** [d.get(key, dflt)] *)
Definition get_default (d : tval) (key : string) (dflt : tval) : result tval :=
  match d with
  | TTab entries => Ok (default dflt (lookup key entries))
  | _ => Raise AttributeError
  end.

(** The number an int, bool or float stands for in a comparison. *)
Definition as_number (v : tval) : option fval :=
  match v with
  | TInt z => Some (FFin (inject_Z z))
  | TBool b => Some (FFin (if b then 1 else 0))
  | TFloat f => Some f
  | _ => None
  end.

Definition fval_le (a b : fval) : bool :=
  match a, b with
  | FNan, _ | _, FNan => false
  | FInf true, _ => true
  | _, FInf false => true
  | FInf false, _ => false
  | _, FInf true => false
  | FFin x, FFin y => Qle_bool x y
  end.

Section Reader.
(** [os.path.exists(p)] *)
Variable os_path_exists : tval -> result bool.
(** [toml.load] on the opened file *)
Variable toml_load : string -> result table.
(** [a <= b] on two lists *)
Variable list_le : list tval -> list tval -> result bool.

(** [a <= b] *)
Definition py_le (a b : tval) : result bool :=
  match as_number a, as_number b with
  | Some x, Some y => Ok (fval_le x y)
  | _, _ =>
      match a, b with
      | TStr x, TStr y => Ok (String.leb x y)
      | TArr x, TArr y => list_le x y
      | _, _ => Raise TypeError
      end
  end.

Definition rbind {A B} (r : result A) (k : A -> result B) : result B :=
  match r with
  | Ok a => k a
  | Raise e => Raise e
  end.

Notation "'let!' x := r 'in' k" := (rbind r (fun x => k))
  (at level 10, x name, r at level 100, k at level 200).

(** The local variables at the [return], next to the returned dict. *)
Record locals : Type := mkLocals {
  l_writeFrequency : tval;
  l_t_start : tval;
  l_logName : tval
}.

(** config.py 21-70 *)
Definition readConfig_locals (name : string) : result (table * locals) :=
  let! present := os_path_exists (TStr name) in
  if negb present then Raise FileNotFoundError else
  let! config := toml_load name in
  let! geometry := getitem (TTab config) "geometry" in
  let! fish_area := get geometry "fish_area" in
  let! start_point := get geometry "initial_oil_area" in
  let! filepath := get geometry "filepath" in
  let! settings := getitem (TTab config) "settings" in
  let! steps := get settings "nSteps" in
  let! t_start := get_default settings "t_start" (TInt 0) in
  let! t_end := get settings "t_end" in
  let! IO := getitem (TTab config) "IO" in
  let! writeFrequency := getitem IO "writeFrequency" in
  let! restartFile := getitem IO "restartFile" in
  let! logName := getitem IO "logName" in
  let! mesh_present :=
    match filepath with
    | Some fp => if truthy filepath then os_path_exists fp else Ok false
    | None => Ok false
    end in
  if negb mesh_present then Raise FileNotFoundError else
  if negb (truthy fish_area) then Raise ValueError else
  if negb (truthy start_point) then Raise ValueError else
  let! bad_steps :=
    match steps with
    | Some n => if truthy steps then py_le n (TInt 0) else Ok true
    | None => Ok true
    end in
  if bad_steps then Raise ValueError else
  if (truthy (Some restartFile) && negb (truthy (Some t_start)))%bool
  then Raise ValueError else
  let! bad_end :=
    match t_end with
    | None => Ok true
    | Some e => py_le e t_start
    end in
  if bad_end then Raise ValueError else
  let writeFrequency :=
    if negb (truthy (Some writeFrequency)) then TInt (-1000)
    else writeFrequency in
  let t_start := if negb (truthy (Some restartFile)) then TInt 0 else t_start in
  let logName :=
    if negb (truthy (Some logName)) then TStr "logfile.log" else logName in
  Ok (config, mkLocals writeFrequency t_start logName).

Definition readConfig (name : string) : result table :=
  match readConfig_locals name with
  | Ok (config, _) => Ok config
  | Raise e => Raise e
  end.

End Reader.

(** *** A file system with four configuration files *)

Definition area_v : tval :=
  TArr [TArr [TFloat (FFin 0); TFloat (FFin (45 # 100))];
        TArr [TFloat (FFin 0); TFloat (FFin (2 # 10))]].

Definition point_v : tval := TArr [TFloat (FFin (35 # 100)); TFloat (FFin (45 # 100))].

Definition good_toml : table :=
  [ ("geometry", TTab [ ("filepath", TStr "bay.msh"); ("fish_area", area_v);
                        ("initial_oil_area", point_v) ]);
    ("settings", TTab [ ("nSteps", TInt 500); ("t_end", TFloat (FFin (5 # 10))) ]);
    ("IO", TTab [ ("writeFrequency", TInt 0); ("restartFile", TStr "");
                  ("logName", TStr "") ]) ].

(** No [IO] section, and no mesh path either. *)
Definition no_io_toml : table :=
  [ ("geometry", TTab [ ("fish_area", area_v); ("initial_oil_area", point_v) ]);
    ("settings", TTab [ ("nSteps", TInt 500); ("t_end", TFloat (FFin (5 # 10))) ]) ].

(** [nSteps] is missing, and so is the [restartFile] key of [IO]. *)
Definition no_steps_toml : table :=
  [ ("geometry", TTab [ ("filepath", TStr "bay.msh"); ("fish_area", area_v);
                        ("initial_oil_area", point_v) ]);
    ("settings", TTab [ ("t_end", TFloat (FFin (5 # 10))) ]);
    ("IO", TTab [ ("writeFrequency", TInt 10); ("logName", TStr "run.log") ]) ].

(** Every section and key is there, but [nSteps] is 0. *)
Definition zero_steps_toml : table :=
  [ ("geometry", TTab [ ("filepath", TStr "bay.msh"); ("fish_area", area_v);
                        ("initial_oil_area", point_v) ]);
    ("settings", TTab [ ("nSteps", TInt 0); ("t_end", TFloat (FFin (5 # 10))) ]);
    ("IO", TTab [ ("writeFrequency", TInt 10); ("restartFile", TStr "");
                  ("logName", TStr "run.log") ]) ].

Definition disk_exists (p : tval) : result bool :=
  match p with
  | TStr s => Ok (String.eqb s "good.toml" || String.eqb s "no_io.toml"
                  || String.eqb s "no_steps.toml"
                  || String.eqb s "zero_steps.toml" || String.eqb s "bay.msh")%bool
  | TInt _ | TBool _ => Ok false
  | _ => Raise TypeError
  end.

Definition disk_load (name : string) : result table :=
  if String.eqb name "good.toml" then Ok good_toml
  else if String.eqb name "no_io.toml" then Ok no_io_toml
  else if String.eqb name "no_steps.toml" then Ok no_steps_toml
  else if String.eqb name "zero_steps.toml" then Ok zero_steps_toml
  else Raise FileNotFoundError.

Definition no_list_le (a b : list tval) : result bool := Raise TypeError.

End Config.


(** ** Vocabulary of the statements *)

(** Whether position [p] holds a cell that takes part in the transport. *)
Definition at_transport {num} (cells : list (cell num)) (p : nat) : bool :=
  match cells !! p with
  | Some c => transport_capable c
  | None => false
  end.

(** The positions of the transport-capable cells, in mesh order. *)
Definition transport_positions {num} (cells : list (cell num)) : list nat :=
  List.filter (at_transport cells) (positions cells).

(** The effect of the commit loop on one cell. *)
Definition commit_if {num} `{!PyNum num} (c : cell num) : cell num :=
  if transport_capable c then commit_cell c else c.

(** The cell [c] after [calculate_change_spec] visited it in the mesh
    [cells]. *)
Definition updated {num} `{!PyNum num} (flux : reading num -> reading num -> num)
    (dt : num) (cells : list (cell num)) (c : cell num) : cell num :=
  set_oil_change c (fmul (fdiv dt (area c)) (inflow flux cells c)).

(** Sums of rationals. *)
Definition Qsum (l : list Q) : Q := fold_right Qplus 0%Q l.

(** The oil in the transport-capable cells, each cell's [oil_amount]
    weighted by its [area]. *)
Definition weighted_oil_amount (cells : list (cell Q)) : Q :=
  fold_right (fun c acc =>
                if transport_capable c then (area c * oil_amount c + acc)%Q else acc)
             0%Q cells.

(** The directed edges [(p, q)] of the neighbour relation of the cells [cs],
    the first of which sits at position [i]. *)
Fixpoint edges_from (i : nat) (cs : list (cell Q)) : list (nat * nat) :=
  match cs with
  | [] => []
  | c :: cs' => map (pair i) (neighbors c) ++ edges_from (S i) cs'
  end.

(** The flux along a directed edge: into the cell at [p] from the one at [q]. *)
Definition edge_flux (flux : reading Q -> reading Q -> Q) (cells : list (cell Q))
    (e : nat * nat) : Q :=
  match cells !! fst e, cells !! snd e with
  | Some c, Some n => flux (read_cell c) (read_cell n)
  | _, _ => 0%Q
  end.

Definition swap_edge (e : nat * nat) : nat * nat := (snd e, fst e).

(** The folders and the snapshot path of a run, as [find_and_plot] builds
    them from [toml_file]. *)
Definition experiment_folder `{!PyBuiltins} (toml_file : option string) : string :=
  path_join ["results";
             ((if truthy_path toml_file then path_stem (default "" toml_file)
               else "default_experiment") ++ "_results")%string].

Definition images_folder `{!PyBuiltins} (toml_file : option string) : string :=
  path_join [experiment_folder toml_file; "images"].

Definition restart_path `{!PyBuiltins} (toml_file : option string) : string :=
  path_join [experiment_folder toml_file; "input/";
             if truthy_path toml_file
             then (path_stem (default "" toml_file) ++ "_restartFile.txt")%string
             else "restartFile.txt"].

(** What a run does before it loads the mesh, and after its last plot. *)
Definition setup_events {num} `{!PyBuiltins} (mesh_path : string)
    (toml_file : option string) : list (event num) :=
  [ EMakedirs "results"; EMakedirs (experiment_folder toml_file);
    EMakedirs (path_join [experiment_folder toml_file; "input"]);
    EMakedirs (images_folder toml_file); ELoadMesh mesh_path ].

Definition closing_events {num} `{!PyNum num} `{!PyBuiltins}
    (toml_file : option string) (end_time : num) (cells : list (cell num))
    (write_frequency intervals : Z) : list (event num) :=
  EWriteFile (restart_path toml_file) (restart_lines end_time cells)
  :: (if write_frequency =? 0 then []
      else [EMakeVideo (experiment_folder toml_file ++ "/images")%string
                       write_frequency intervals]).

Definition is_within_area {num} (e : event num) : bool :=
  match e with EWithinArea _ _ => true | _ => false end.

Definition is_step_event {num} (e : event num) : bool :=
  match e with ECalcChange _ _ | ECommit _ => true | _ => false end.

Definition is_loop_event {num} (e : event num) : bool :=
  match e with EPlot _ _ _ _ | ECalcChange _ _ | ECommit _ => true | _ => false end.

Definition is_write_event {num} (e : event num) : bool :=
  match e with EWriteFile _ _ => true | _ => false end.

Definition is_plot_event {num} (e : event num) : bool :=
  match e with EPlot _ _ _ _ => true | _ => false end.

Definition is_seed_event {num} (e : event num) : bool :=
  match e with EInitialOil _ => true | _ => false end.

Definition is_read_event {num} (e : event num) : bool :=
  match e with EReadFile _ => true | _ => false end.

(** The entries a run of [n] steps records, one for each step: the rounded
    time after the step and the oil in [area] after the step's commit. *)
Fixpoint trajectory {num} `{!PyNum num} `{!MeshOps num} (dt : num)
    (area : list nat) (n : nat) (t : num) (cells : list (cell num))
  : result (list (num * num)) :=
  match n with
  | O => Ok []
  | S n' =>
      match value_of (step dt cells) with
      | Ok cells1 =>
          let t1 := fround 4 (fadd t dt) in
          match trajectory dt area n' t1 cells1 with
          | Ok entries => Ok ((t1, oil_in_area area cells1) :: entries)
          | Raise e => Raise e
          end
      | Raise e => Raise e
      end
  end.

(** No key of the list equals, under [==], a key before it. *)
Fixpoint keys_distinct {num} `{!PyNum num} (l : list (num * num)) : bool :=
  match l with
  | [] => true
  | (k, _) :: l' =>
      forallb (fun kv => negb (feqb k (fst kv))) l' && keys_distinct l'
  end.

(** Whether the character occurs in the string. *)
Fixpoint mentions (ch : ascii) (s : string) : bool :=
  match s with
  | EmptyString => false
  | String c rest => Ascii.eqb c ch || mentions ch rest
  end.

(** Whether the cells carry, as [index], their positions [i], [i + 1], ... *)
Fixpoint indexed_from {num} (i : nat) (cells : list (cell num)) : bool :=
  match cells with
  | [] => true
  | c :: rest => (index c =? Z.of_nat i) && indexed_from (S i) rest
  end.

(** The cells [cells0] with the [oil_amount] of the cells [cells], position
    by position. *)
Definition with_amounts_of {num} (cells0 cells : list (cell num))
  : list (cell num) :=
  zip_with (fun c0 c => set_oil_amount c0 (oil_amount c)) cells0 cells.

(** What a snapshot needs of the printed form of a cell to be read back:
    [int] and [float] invert the two conversions, and neither text has a
    semicolon in it. *)
Definition reads_back {num} `{!PyNum num} `{!PyBuiltins} (c : cell num) : Prop :=
  int_of_string (str_of_int (index c)) = Some (index c) /\
  float_of_string (str_of_num (oil_amount c) ++ newline)%string
    = Some (oil_amount c) /\
  mentions ";" (str_of_int (index c)) = false /\
  mentions ";" (str_of_num (oil_amount c)) = false.

(** * Properties *)

(** ** The monad and the loops *)

Lemma bind_ok {num A B} (tr : list (event num)) (a : A) (k : A -> M num B) :
  bind (tr, Ok a) k = (tr ++ trace_of (k a), value_of (k a)).
Proof. unfold bind, trace_of, value_of. destruct (k a); reflexivity. Qed.

Lemma bind_raise {num A B} (tr : list (event num)) (e : exn) (k : A -> M num B) :
  bind (tr, Raise e) k = (tr, Raise e).
Proof. reflexivity. Qed.

Lemma for_each_cons {num X S} (body : X -> S -> M num S) (x : X) (xs : list X)
      (s : S) :
  for_each body (x :: xs) s = bind (body x s) (for_each body xs).
Proof. reflexivity. Qed.

Lemma value_of_bind {num A B} (m : M num A) (k : A -> M num B) :
  value_of (bind m k) =
    match value_of m with
    | Ok a => value_of (k a)
    | Raise e => Raise e
    end.
Proof.
  destruct m as [tr [a|e]]; simpl; [|reflexivity].
  unfold value_of. destruct (k a); reflexivity.
Qed.

Lemma trace_of_bind_Forall {num A B} (P : event num -> Prop) (m : M num A)
      (k : A -> M num B) :
  Forall P (trace_of m) -> (forall a, Forall P (trace_of (k a))) ->
  Forall P (trace_of (bind m k)).
Proof.
  intros Hm Hk. destruct m as [tr [a|e]]; simpl in *; [|exact Hm].
  specialize (Hk a). destruct (k a) as [tr' r]. simpl in *.
  apply Forall_app. split; assumption.
Qed.

Lemma pair_eta {num A} (m : M num A) : m = (trace_of m, value_of m).
Proof. destruct m; reflexivity. Qed.

(** A loop whose body never raises never raises, and its trace is the
    concatenation of the traces of its iterations. *)
Lemma for_each_total {num X S} (body : X -> S -> M num S) (xs : list X) :
  (forall x s, exists s', value_of (body x s) = Ok s') ->
  forall s, exists s', value_of (for_each body xs s) = Ok s'.
Proof.
  intros Hbody. induction xs as [|x xs IH]; intros s; simpl.
  - exists s. reflexivity.
  - destruct (Hbody x s) as [s1 H1].
    rewrite (pair_eta (body x s)), H1, bind_ok. simpl. apply IH.
Qed.

(** What holds after every iteration holds after a loop that ran at least once. *)
Lemma for_each_last {num X S} (Q : S -> Prop) (body : X -> S -> M num S)
      (xs : list X) :
  (forall x s s', value_of (body x s) = Ok s' -> Q s') ->
  xs <> [] ->
  forall s s', value_of (for_each body xs s) = Ok s' -> Q s'.
Proof.
  intros Hbody. induction xs as [|x xs IH]; intros Hne s s'; [congruence|].
  simpl. rewrite (pair_eta (body x s)).
  destruct (value_of (body x s)) as [s1|e] eqn:H1; [|discriminate].
  rewrite bind_ok. simpl. destruct xs as [|y ys].
  - simpl. intros [= <-]. eapply Hbody, H1.
  - apply IH. discriminate.
Qed.

(** An invariant of the body is an invariant of the loop. *)
Lemma for_each_invariant {num X S} (Q : S -> Prop) (body : X -> S -> M num S)
      (xs : list X) :
  (forall x s s', Q s -> value_of (body x s) = Ok s' -> Q s') ->
  forall s s', Q s -> value_of (for_each body xs s) = Ok s' -> Q s'.
Proof.
  intros Hbody. induction xs as [|x xs IH]; intros s s' HQ; simpl.
  - intros [= <-]. exact HQ.
  - rewrite (pair_eta (body x s)).
    destruct (value_of (body x s)) as [s1|e] eqn:H1; [|discriminate].
    rewrite bind_ok. simpl. apply IH. eapply Hbody; eassumption.
Qed.

(** Every event of a loop is an event of one of its iterations. *)
Lemma for_each_trace_Forall {num X S} (P : event num -> Prop)
      (body : X -> S -> M num S) (xs : list X) :
  (forall x s, Forall P (trace_of (body x s))) ->
  forall s, Forall P (trace_of (for_each body xs s)).
Proof.
  intros Hbody. induction xs as [|x xs IH]; intros s; simpl.
  - constructor.
  - specialize (Hbody x s). rewrite (pair_eta (body x s)).
    destruct (value_of (body x s)) as [s1|e].
    + rewrite bind_ok. simpl. apply Forall_app. split; [exact Hbody | apply IH].
    + simpl. exact Hbody.
Qed.

(** ** The two loops of a step *)

Section StepFacts.
Context {num : Type} `{!PyNum num} `{!PyBuiltins} `{!MeshOps num}.

Lemma at_transport_kinds (cs cs' : list (cell num)) (p : nat) :
  map kind cs = map kind cs' -> at_transport cs p = at_transport cs' p.
Proof.
  intros Hk. unfold at_transport, transport_capable.
  assert (Hl : kind <$> (cs !! p) = kind <$> (cs' !! p)).
  { rewrite <- !list_lookup_fmap.
    change (kind <$> cs) with (map kind cs).
    change (kind <$> cs') with (map kind cs'). rewrite Hk. reflexivity. }
  destruct (cs !! p), (cs' !! p); simpl in Hl; try congruence.
  injection Hl as ->. reflexivity.
Qed.

Lemma filter_at_transport_kinds (cs cs' : list (cell num)) (l : list nat) :
  map kind cs = map kind cs' ->
  List.filter (at_transport cs) l = List.filter (at_transport cs') l.
Proof.
  intros Hk. apply List.filter_ext. intros p. apply at_transport_kinds, Hk.
Qed.

Lemma kinds_length (cs cs' : list (cell num)) :
  map kind cs = map kind cs' -> length cs = length cs'.
Proof.
  intros Hk. rewrite <- (length_map kind cs), Hk. apply length_map.
Qed.

(** The compute loop calls [calculate_change] once for each transport-capable
    cell of the visiting order, and never raises, whenever the mesh operation
    leaves the kinds of the cells alone. *)
Lemma compute_phase_run (dt : num) :
  (forall cs p d, map kind (calculate_change cs p d) = map kind cs) ->
  forall order cells, exists cells1,
    compute_phase dt order cells =
      (map (fun p => ECalcChange p dt) (List.filter (at_transport cells) order),
       Ok cells1) /\
    map kind cells1 = map kind cells.
Proof.
  intros Hkind. unfold compute_phase.
  induction order as [|p order IH]; intros cells; simpl.
  - exists cells. split; reflexivity.
  - assert (Hat : at_transport cells p
                  = match cells !! p with Some c => transport_capable c | None => false end)
      by reflexivity.
    rewrite Hat. unfold compute_body at 1.
    destruct (cells !! p) as [c|] eqn:Hp; [destruct (transport_capable c)|].
    + destruct (IH (calculate_change cells p dt)) as (cells1 & Hrun & Hk).
      exists cells1. split.
      * unfold bind at 1. simpl. rewrite Hrun.
        rewrite (filter_at_transport_kinds _ cells order (Hkind cells p dt)).
        reflexivity.
      * rewrite Hk. apply Hkind.
    + destruct (IH cells) as (cells1 & Hrun & Hk).
      exists cells1. split; [|exact Hk]. unfold bind at 1. simpl. rewrite Hrun. reflexivity.
    + destruct (IH cells) as (cells1 & Hrun & Hk).
      exists cells1. split; [|exact Hk]. unfold bind at 1. simpl. rewrite Hrun. reflexivity.
Qed.

Lemma commit_if_kind (c : cell num) : kind (commit_if c) = kind c.
Proof. unfold commit_if. destruct (transport_capable c); reflexivity. Qed.

Lemma commit_if_kinds (cs : list (cell num)) :
  map kind (map commit_if cs) = map kind cs.
Proof.
  rewrite map_map. apply map_ext. intros c. apply commit_if_kind.
Qed.

(** The commit loop, started on the part [post] of the list that it has not
    visited yet. *)
Lemma commit_loop_run (post : list (cell num)) :
  forall pre,
    for_each commit_body (seq (length pre) (length post)) (pre ++ post) =
      (map ECommit (List.filter (at_transport (pre ++ post))
                                (seq (length pre) (length post))),
       Ok (pre ++ map commit_if post)).
Proof.
  induction post as [|c post IH]; intros pre.
  - reflexivity.
  - assert (Hp : (pre ++ c :: post) !! length pre = Some c).
    { rewrite lookup_app_r by lia. rewrite Nat.sub_diag. reflexivity. }
    assert (Hat : at_transport (pre ++ c :: post) (length pre) = transport_capable c).
    { unfold at_transport. rewrite Hp. reflexivity. }
    assert (Hcons : forall c', pre ++ c' :: post = (pre ++ [c']) ++ post).
    { intros c'. rewrite <- app_assoc. reflexivity. }
    assert (Hlen : forall c' : cell num, S (length pre) = length (pre ++ [c'])).
    { intros c'. rewrite length_app. simpl. lia. }
    change (seq (length pre) (length (c :: post)))
      with (length pre :: seq (S (length pre)) (length post)).
    change (map commit_if (c :: post)) with (commit_if c :: map commit_if post).
    rewrite for_each_cons. cbn [List.filter]. rewrite Hat.
    assert (Hb : commit_body (length pre) (pre ++ c :: post)
                 = if transport_capable c
                   then ([ECommit (length pre)],
                         Ok (<[length pre := commit_cell c]> (pre ++ c :: post)))
                   else ([], Ok (pre ++ c :: post))).
    { unfold commit_body. rewrite Hp. destruct (transport_capable c); reflexivity. }
    rewrite Hb. unfold commit_if at 1.
    destruct (transport_capable c) eqn:Ht.
    + assert (Hins : <[length pre := commit_cell c]> (pre ++ c :: post)
                     = (pre ++ [commit_cell c]) ++ post).
      { rewrite insert_app_r_alt by lia. rewrite Nat.sub_diag. simpl.
        apply Hcons. }
      rewrite Hins, bind_ok.
      rewrite (Hlen (commit_cell c)), IH. unfold trace_of, value_of. simpl.
      rewrite <- (Hlen (commit_cell c)), <- !Hcons.
      rewrite (filter_at_transport_kinds (pre ++ commit_cell c :: post)
                                         (pre ++ c :: post)).
      * rewrite <- app_assoc. reflexivity.
      * rewrite !map_app. reflexivity.
    + rewrite bind_ok.
      rewrite (Hcons c), (Hlen c), IH. unfold trace_of, value_of. simpl.
      rewrite <- (Hlen c), <- !Hcons, <- app_assoc. reflexivity.
Qed.

Lemma commit_phase_run (cells : list (cell num)) :
  commit_phase cells =
    (map ECommit (transport_positions cells), Ok (map commit_if cells)).
Proof. apply (commit_loop_run cells []). Qed.

Lemma commit_if_settled (c : cell num) :
  transport_capable (commit_if c) = true -> oil_change (commit_if c) = fzero.
Proof.
  unfold commit_if. destruct (transport_capable c) eqn:Ht.
  - reflexivity.
  - rewrite Ht. discriminate.
Qed.

Lemma transport_positions_kinds (cs cs' : list (cell num)) :
  map kind cs = map kind cs' -> transport_positions cs = transport_positions cs'.
Proof.
  intros Hk. unfold transport_positions, positions.
  rewrite (kinds_length _ _ Hk). apply filter_at_transport_kinds, Hk.
Qed.


End StepFacts.

(** ** The transport operator *)

Section TransportFacts.
Context {num : Type} `{!PyNum num}.
Variable flux : reading num -> reading num -> num.

Lemma calculate_change_spec_eq (cs : list (cell num)) (p : nat) (dt : num)
      (c : cell num) :
  cs !! p = Some c ->
  calculate_change_spec flux cs p dt = <[p := updated flux dt cs c]> cs.
Proof. intros Hp. unfold calculate_change_spec. rewrite Hp. reflexivity. Qed.

Lemma calculate_change_spec_none (cs : list (cell num)) (p : nat) (dt : num) :
  cs !! p = None -> calculate_change_spec flux cs p dt = cs.
Proof. intros Hp. unfold calculate_change_spec. rewrite Hp. reflexivity. Qed.

(** The operator leaves the kinds, and so the length of the list, alone. *)
Lemma calculate_change_spec_kinds (cs : list (cell num)) (p : nat) (dt : num) :
  map kind (calculate_change_spec flux cs p dt) = map kind cs.
Proof.
  destruct (cs !! p) as [c|] eqn:Hp.
  - rewrite (calculate_change_spec_eq _ _ _ _ Hp).
    change (kind <$> <[p := updated flux dt cs c]> cs = kind <$> cs).
    rewrite list_fmap_insert. apply list_insert_id.
    rewrite list_lookup_fmap, Hp. reflexivity.
  - rewrite calculate_change_spec_none by exact Hp. reflexivity.
Qed.

(** The operator changes nothing but the [oil_change] of the visited cell. *)
Lemma calculate_change_spec_frame (cs : list (cell num)) (p : nat) (dt : num)
      (q : nat) (c : cell num) :
  cs !! q = Some c ->
  exists x, calculate_change_spec flux cs p dt !! q = Some (set_oil_change c x) /\
            (q <> p -> x = oil_change c).
Proof.
  intros Hq. destruct (cs !! p) as [c0|] eqn:Hp.
  - rewrite (calculate_change_spec_eq _ _ _ _ Hp).
    destruct (decide (q = p)) as [->|Hne].
    + exists (fmul (fdiv dt (area c0)) (inflow flux cs c0)). split; [|congruence].
      rewrite list_lookup_insert_eq by (eapply lookup_lt_Some, Hp).
      assert (c0 = c) as -> by congruence. reflexivity.
    + exists (oil_change c). split; [|reflexivity].
      rewrite list_lookup_insert_ne by congruence. rewrite Hq.
      destruct c; reflexivity.
  - rewrite calculate_change_spec_none by exact Hp.
    exists (oil_change c). split; [|reflexivity]. rewrite Hq. destruct c; reflexivity.
Qed.

(** What the operator computes for a cell depends on what it may read of
    the cells, not on any [oil_change]. *)
Lemma inflow_ext (cs cs' : list (cell num)) (c c' : cell num) :
  (forall q, read_cell <$> cs !! q = read_cell <$> cs' !! q) ->
  read_cell c = read_cell c' -> neighbors c = neighbors c' ->
  inflow flux cs c = inflow flux cs' c'.
Proof.
  intros Hcs Hc Hn. unfold inflow. rewrite <- Hn, <- Hc. clear Hn Hc.
  generalize (@fzero num _). induction (neighbors c) as [|q l IH]; intros acc.
  - reflexivity.
  - simpl. specialize (Hcs q).
    destruct (cs !! q) as [n|], (cs' !! q) as [n'|]; simpl in Hcs; try discriminate.
    + assert (Hr : read_cell n = read_cell n') by congruence.
      rewrite Hr. apply IH.
    + apply IH.
Qed.

Lemma updated_read (dt : num) (cs : list (cell num)) (c : cell num) :
  read_cell (updated flux dt cs c) = read_cell c.
Proof. reflexivity. Qed.

Lemma updated_ext (dt : num) (cs cs' : list (cell num)) (c : cell num) :
  (forall q, read_cell <$> cs !! q = read_cell <$> cs' !! q) ->
  updated flux dt cs c = updated flux dt cs' c.
Proof.
  intros Hcs. unfold updated. rewrite (inflow_ext cs cs' c c); auto.
Qed.

Lemma updated_twice (dt : num) (cs cs' : list (cell num)) (c : cell num) :
  (forall q, read_cell <$> cs !! q = read_cell <$> cs' !! q) ->
  updated flux dt cs' (updated flux dt cs c) = updated flux dt cs c.
Proof.
  intros Hcs. unfold updated at 1 3. simpl.
  rewrite (inflow_ext cs' cs (updated flux dt cs c) c); auto.
Qed.

Lemma insert_updated_read (dt : num) (cs : list (cell num)) (p : nat) (c : cell num) :
  cs !! p = Some c ->
  forall q, read_cell <$> cs !! q = read_cell <$> <[p := updated flux dt cs c]> cs !! q.
Proof.
  intros Hp q. destruct (decide (q = p)) as [->|Hne].
  - rewrite list_lookup_insert_eq by (eapply lookup_lt_Some, Hp).
    rewrite Hp. reflexivity.
  - rewrite list_lookup_insert_ne by congruence. reflexivity.
Qed.

End TransportFacts.

(** ** Steps over the modelled transport operator *)

Section OrderFacts.
Context {num : Type} `{!PyNum num} `{!MeshOps num}.
Variable flux : reading num -> reading num -> num.
Hypothesis calculate_change_is_spec :
  forall cs p d, calculate_change cs p d = calculate_change_spec flux cs p d.

Lemma compute_body_spec (dt : num) (p : nat) (cells : list (cell num)) :
  compute_body dt p cells =
    if at_transport cells p
    then ([ECalcChange p dt], Ok (calculate_change_spec flux cells p dt))
    else ([], Ok cells).
Proof.
  unfold compute_body, at_transport.
  destruct (cells !! p) as [c|]; [destruct (transport_capable c)|]; try reflexivity.
  rewrite calculate_change_is_spec. reflexivity.
Qed.

(** The state the compute loop ends in, cell by cell: a cell is updated, from
    the state the loop started in, exactly when the loop visited it. *)
Lemma compute_phase_lookup (dt : num) (order : list nat) :
  forall cells, exists cells1,
    value_of (compute_phase dt order cells) = Ok cells1 /\
    forall p, cells1 !! p =
      if bool_decide (p ∈ order) && at_transport cells p
      then updated flux dt cells <$> cells !! p
      else cells !! p.
Proof.
  unfold compute_phase. induction order as [|p0 order IH]; intros cells.
  - exists cells. split; [reflexivity|]. intros p.
    rewrite bool_decide_eq_false_2 by apply not_elem_of_nil. reflexivity.
  - rewrite for_each_cons, value_of_bind, compute_body_spec.
    destruct (at_transport cells p0) eqn:Hat.
    + unfold value_of at 2. simpl snd.
      destruct (cells !! p0) as [c0|] eqn:Hp0;
        [|unfold at_transport in Hat; rewrite Hp0 in Hat; discriminate].
      destruct (IH (calculate_change_spec flux cells p0 dt)) as (cells1 & Hv & Hl).
      exists cells1. split; [exact Hv|]. intros p. rewrite Hl.
      rewrite (at_transport_kinds _ cells p)
        by apply calculate_change_spec_kinds.
      rewrite (calculate_change_spec_eq flux _ _ _ _ Hp0).
      pose proof (insert_updated_read flux dt cells p0 c0 Hp0) as Hread.
      destruct (decide (p = p0)) as [->|Hne].
      * rewrite list_lookup_insert_eq by (eapply lookup_lt_Some, Hp0).
        rewrite Hat, Hp0, andb_true_r.
        rewrite (bool_decide_eq_true_2 (p0 ∈ p0 :: order)) by (apply elem_of_cons; left; reflexivity).
        destruct (bool_decide (p0 ∈ order)); simpl; [|reflexivity].
        rewrite updated_twice by exact Hread. reflexivity.
      * rewrite list_lookup_insert_ne by congruence.
        rewrite (bool_decide_ext (p ∈ p0 :: order) (p ∈ order)).
        2:{ rewrite elem_of_cons. tauto. }
        destruct (bool_decide (p ∈ order) && at_transport cells p); [|reflexivity].
        destruct (cells !! p) as [c|]; [|reflexivity]. simpl.
        rewrite <- (updated_ext flux dt cells _ c Hread). reflexivity.
    + unfold value_of at 2. simpl snd.
      destruct (IH cells) as (cells1 & Hv & Hl).
      exists cells1. split; [exact Hv|]. intros p. rewrite Hl.
      destruct (decide (p = p0)) as [->|Hne].
      * rewrite Hat, !andb_false_r. reflexivity.
      * rewrite (bool_decide_ext (p ∈ p0 :: order) (p ∈ order)); [reflexivity|].
        rewrite elem_of_cons. tauto.
Qed.

(** Only which cells the compute loop visits matters, not in what order, nor
    how often. *)
Lemma compute_phase_members (dt : num) (order order' : list nat)
      (cells : list (cell num)) :
  (forall p, p ∈ order <-> p ∈ order') ->
  value_of (compute_phase dt order cells) = value_of (compute_phase dt order' cells).
Proof.
  intros Hmem.
  destruct (compute_phase_lookup dt order cells) as (c1 & -> & Hl).
  destruct (compute_phase_lookup dt order' cells) as (c1' & -> & Hl').
  f_equal. apply list_eq. intros p. rewrite Hl, Hl'.
  rewrite (bool_decide_ext _ _ (Hmem p)). reflexivity.
Qed.

Lemma step_in_order_value (order : list nat) (dt : num) (cells : list (cell num)) :
  value_of (step_in_order order dt cells) =
    match value_of (compute_phase dt order cells) with
    | Ok cells1 => Ok (map commit_if cells1)
    | Raise e => Raise e
    end.
Proof.
  unfold step_in_order. rewrite value_of_bind.
  destruct (value_of (compute_phase dt order cells)); [|reflexivity].
  rewrite commit_phase_run. reflexivity.
Qed.


End OrderFacts.



(** ** Conservation, in exact arithmetic *)

Section Conservation.
Import QInstance.
Local Open Scope Q_scope.

Lemma Qsum_app (l l' : list Q) : Qsum (l ++ l') == Qsum l + Qsum l'.
Proof.
  induction l as [|x l IH]; simpl.
  - ring.
  - rewrite IH. ring.
Qed.

Lemma Qsum_Permutation (l l' : list Q) : Permutation l l' -> Qsum l == Qsum l'.
Proof.
  induction 1 as [|x l l' _ IH|x y l|l l' l'' _ IH1 _ IH2]; simpl.
  - reflexivity.
  - rewrite IH. reflexivity.
  - ring.
  - rewrite IH1. exact IH2.
Qed.

Lemma Qsum_map_opp {A} (f g : A -> Q) (l : list A) :
  (forall x, f x == - g x) -> Qsum (map f l) == - Qsum (map g l).
Proof.
  intros Hfg. induction l as [|x l IH]; simpl.
  - ring.
  - rewrite IH, Hfg. ring.
Qed.

Lemma Qsum_map_ext_in {A} (f g : A -> Q) (l : list A) :
  (forall x, In x l -> f x == g x) -> Qsum (map f l) == Qsum (map g l).
Proof.
  intros Hfg. induction l as [|x l IH]; simpl.
  - reflexivity.
  - assert (Hl : Qsum (map f l) == Qsum (map g l)).
    { apply IH. intros y Hy. apply Hfg. simpl. auto. }
    rewrite Hl, (Hfg x) by (simpl; auto). reflexivity.
Qed.

Variable flux : reading Q -> reading Q -> Q.

(** What a cell receives is the sum of the fluxes along its edges. *)
Lemma inflow_fold (cells : list (cell Q)) (c : cell Q) (l : list nat) (acc : Q) :
  fold_left (fun acc q =>
               match cells !! q with
               | Some n => fadd acc (flux (read_cell c) (read_cell n))
               | None => acc
               end) l acc
  == acc + Qsum (map (fun q => match cells !! q with
                               | Some n => flux (read_cell c) (read_cell n)
                               | None => 0
                               end) l).
Proof.
  revert acc. induction l as [|q l IH]; intros acc; simpl.
  - ring.
  - rewrite IH. destruct (cells !! q); simpl; ring.
Qed.

Lemma inflow_edges (cells : list (cell Q)) (p : nat) (c : cell Q) :
  cells !! p = Some c ->
  inflow flux cells c == Qsum (map (edge_flux flux cells) (map (pair p) (neighbors c))).
Proof.
  intros Hp. unfold inflow. rewrite inflow_fold, map_map.
  unfold edge_flux. simpl. rewrite Hp.
  change (@fzero Q QNum) with 0. ring.
Qed.

Lemma elem_of_edges_from (cs : list (cell Q)) :
  forall i p q,
    (p, q) ∈ edges_from i cs <->
    (i <= p)%nat /\ exists c, cs !! (p - i)%nat = Some c /\ q ∈ neighbors c.
Proof.
  induction cs as [|c cs IH]; intros i p q; simpl.
  - split.
    + intros Hin. apply elem_of_nil in Hin. contradiction.
    + intros (_ & c & Hc & _). discriminate.
  - rewrite elem_of_app, IH.
    change (map (pair i) (neighbors c)) with (pair i <$> neighbors c).
    rewrite list_elem_of_fmap. split.
    + intros [(q' & Heq & Hq')|(Hle & c' & Hc' & Hq')].
      * injection Heq as -> ->. split; [lia|]. exists c.
        rewrite Nat.sub_diag. split; [reflexivity | exact Hq'].
      * split; [lia|]. exists c'. split; [|exact Hq'].
        replace (p - i)%nat with (S (p - S i)) by lia. exact Hc'.
    + intros (Hle & c' & Hc' & Hq').
      destruct (decide (p = i)) as [->|Hne].
      * left. exists q. rewrite Nat.sub_diag in Hc'. simpl in Hc'.
        injection Hc' as <-. split; [reflexivity | exact Hq'].
      * right. split; [lia|]. exists c'. split; [|exact Hq'].
        replace (p - i)%nat with (S (p - S i)) in Hc' by lia. exact Hc'.
Qed.

Lemma NoDup_edges_from (cs : list (cell Q)) :
  (forall c, c ∈ cs -> NoDup (neighbors c)) ->
  forall i, NoDup (edges_from i cs).
Proof.
  induction cs as [|c cs IH]; intros Hnd i; simpl.
  - constructor.
  - apply NoDup_app. split; [|split].
    + change (map (pair i) (neighbors c)) with (pair i <$> neighbors c).
      apply NoDup_fmap_2; [apply _|]. apply Hnd, elem_of_cons. left. reflexivity.
    + intros [p q] Hin Hin'.
      change (map (pair i) (neighbors c)) with (pair i <$> neighbors c) in Hin.
      apply list_elem_of_fmap in Hin as (q' & Heq & _). injection Heq as -> ->.
      apply elem_of_edges_from in Hin' as (Hle & _). lia.
    + apply IH. intros c' Hc'. apply Hnd, elem_of_cons. right. exact Hc'.
Qed.

(** Summed over the cells, what the cells receive is the sum of the fluxes
    along all directed edges. *)
Lemma inflow_sum (cells : list (cell Q)) :
  forall cs i,
    (forall k, cs !! k = cells !! (i + k)%nat) ->
    Qsum (map (inflow flux cells) cs)
    == Qsum (map (edge_flux flux cells) (edges_from i cs)).
Proof.
  induction cs as [|c cs IH]; intros i Hsuf; simpl.
  - reflexivity.
  - rewrite map_app, Qsum_app.
    rewrite <- (inflow_edges cells i c).
    + rewrite (IH (S i)); [reflexivity|].
      intros k. replace (S i + k)%nat with (i + S k)%nat by lia.
      apply (Hsuf (S k)).
    + rewrite <- (Nat.add_0_r i). symmetry. apply (Hsuf 0%nat).
Qed.

Lemma edge_flux_swap (cells : list (cell Q)) (e : nat * nat) :
  (forall a b, flux a b == - flux b a) ->
  edge_flux flux cells (swap_edge e) == - edge_flux flux cells e.
Proof.
  intros Hanti. unfold edge_flux, swap_edge. simpl.
  destruct (cells !! fst e), (cells !! snd e); try ring. apply Hanti.
Qed.

Lemma swap_edge_involutive (e : nat * nat) : swap_edge (swap_edge e) = e.
Proof. destruct e; reflexivity. Qed.

Lemma edges_closed (cells : list (cell Q)) (e : nat * nat) :
  closed_mesh cells -> e ∈ edges_from 0 cells -> swap_edge e ∈ edges_from 0 cells.
Proof.
  intros Hclosed. destruct e as [p q]. unfold swap_edge. simpl.
  rewrite !elem_of_edges_from, !Nat.sub_0_r.
  intros (_ & c & Hc & Hq). split; [lia|].
  destruct (Hclosed p c Hc) as (_ & _ & _ & Hnb).
  destruct (Hnb q Hq) as (_ & n & Hn & Hp). exists n. split; assumption.
Qed.

(** On a closed mesh an antisymmetric flux sums to zero over the edges. *)
Lemma total_flux_zero (cells : list (cell Q)) :
  (forall a b, flux a b == - flux b a) -> closed_mesh cells ->
  Qsum (map (edge_flux flux cells) (edges_from 0 cells)) == 0.
Proof.
  intros Hanti Hclosed. set (E := edges_from 0 cells).
  assert (Hnd : NoDup E).
  { apply NoDup_edges_from. intros c Hc.
    apply list_elem_of_lookup in Hc as (p & Hp).
    apply (Hclosed p c Hp). }
  assert (Hperm : Permutation (swap_edge <$> E) E).
  { apply NoDup_Permutation.
    - apply NoDup_fmap_2; [|exact Hnd].
      intros e e' Heq. rewrite <- (swap_edge_involutive e), Heq.
      apply swap_edge_involutive.
    - exact Hnd.
    - intros e. rewrite list_elem_of_fmap. split.
      + intros (e' & -> & He'). apply edges_closed; assumption.
      + intros He. exists (swap_edge e). split.
        * symmetry. apply swap_edge_involutive.
        * apply edges_closed; assumption. }
  assert (Hsum : Qsum (map (edge_flux flux cells) (swap_edge <$> E))
                 == Qsum (map (edge_flux flux cells) E)).
  { apply Qsum_Permutation, Permutation_map, Hperm. }
  change (swap_edge <$> E) with (map swap_edge E) in Hsum.
  rewrite map_map in Hsum.
  rewrite (Qsum_map_opp _ (edge_flux flux cells)) in Hsum
    by (intros e; apply edge_flux_swap, Hanti).
  lra.
Qed.

Lemma weighted_change_updated (dt : Q) (cells cs : list (cell Q)) :
  (forall c, c ∈ cs -> kind c = Triangle /\ ~ area c == 0) ->
  weighted_oil_change (map (updated flux dt cells) cs)
  == dt * Qsum (map (inflow flux cells) cs).
Proof.
  induction cs as [|c cs IH]; intros Hall; simpl.
  - ring.
  - destruct (Hall c) as [Hk Ha]; [apply elem_of_cons; left; reflexivity|].
    unfold transport_capable at 1. simpl. rewrite Hk.
    rewrite IH by (intros c' Hc'; apply Hall, elem_of_cons; right; exact Hc').
    change (@fmul Q QNum) with Qmult. change (@fdiv Q QNum) with Qdiv.
    field. exact Ha.
Qed.

Lemma weighted_amount_updated (dt : Q) (cells cs : list (cell Q)) :
  weighted_oil_amount (map (updated flux dt cells) cs) = weighted_oil_amount cs.
Proof.
  induction cs as [|c cs IH]; simpl; [reflexivity|].
  rewrite IH. reflexivity.
Qed.

Lemma weighted_amount_commit (cs : list (cell Q)) :
  weighted_oil_amount (map commit_if cs)
  == weighted_oil_amount cs + weighted_oil_change cs.
Proof.
  induction cs as [|c cs IH]; simpl.
  - ring.
  - assert (Hk : transport_capable (commit_if c) = transport_capable c).
    { unfold transport_capable. rewrite commit_if_kind. reflexivity. }
    rewrite Hk. unfold commit_if at 1 2.
    destruct (transport_capable c) eqn:Ht; rewrite IH; [|reflexivity].
    simpl. change (@fadd Q QNum) with Qplus. ring.
Qed.

Context `{!MeshOps Q}.
Hypothesis calculate_change_is_spec :
  forall cs p d, calculate_change cs p d = calculate_change_spec flux cs p d.

(** On a mesh of triangles the compute loop updates every cell from the
    state the step started in. *)
Lemma compute_phase_closed (dt : Q) (cells : list (cell Q)) :
  closed_mesh cells ->
  value_of (compute_phase dt (positions cells) cells)
  = Ok (map (updated flux dt cells) cells).
Proof.
  intros Hclosed.
  destruct (compute_phase_lookup flux calculate_change_is_spec dt
              (positions cells) cells) as (c1 & -> & Hl).
  f_equal. apply list_eq. intros p. rewrite Hl.
  change (map (updated flux dt cells) cells) with (updated flux dt cells <$> cells).
  rewrite list_lookup_fmap.
  destruct (cells !! p) as [c|] eqn:Hp.
  - rewrite bool_decide_eq_true_2.
    + unfold at_transport, transport_capable. rewrite Hp.
      destruct (Hclosed p c Hp) as (-> & _). reflexivity.
    + unfold positions. apply elem_of_seq. apply lookup_lt_Some in Hp. lia.
  - destruct (bool_decide (p ∈ positions cells) && at_transport cells p);
      reflexivity.
Qed.


End Conservation.

Lemma differential_antisym (a b : reading Q) :
  (differential a b == - differential b a)%Q.
Proof. unfold differential. ring. Qed.

Lemma pair_closed : closed_mesh Example.pair.
Proof.
  intros p c Hp.
  destruct p as [|[|p]]; simpl in Hp; [| |discriminate];
    injection Hp as <-; simpl.
  - split; [reflexivity|]. split; [apply NoDup_singleton|].
    split; [intros Ha; discriminate Ha|].
    intros q Hq. apply list_elem_of_singleton in Hq as ->.
    split; [discriminate|]. eexists. split; [reflexivity|].
    apply list_elem_of_singleton. reflexivity.
  - split; [reflexivity|]. split; [apply NoDup_singleton|].
    split; [intros Ha; discriminate Ha|].
    intros q Hq. apply list_elem_of_singleton in Hq as ->.
    split; [discriminate|]. eexists. split; [reflexivity|].
    apply list_elem_of_singleton. reflexivity.
Qed.



(** ** A whole run *)

Section RunFacts.
Context {num : Type} `{!PyNum num} `{!PyBuiltins} `{!MeshOps num}.
Variable read_lines : string -> result (list string).

(** A run that returns went through every stage, and its trace is the
    concatenation of the traces of the stages. *)
Lemma find_and_plot_ok (mesh_path : string) (start_time end_time : num)
      (intervals write_frequency : Z) (start_point : list num)
      (factory : cell_factory) (x_area y_area : list num)
      (restartFile toml_file : option string) (fast : Z)
      (tr : list (event num)) (m : list (num * num)) :
  find_and_plot read_lines mesh_path start_time end_time intervals
                write_frequency start_point factory x_area y_area
                restartFile toml_file fast = (tr, Ok m) ->
  exists cells0 tr_calc cells1 tr_seed t0 cells2 t1 dt tr_loop st,
    load_mesh mesh_path factory = Ok cells0 /\
    for_each calculate_body (positions cells0) cells0 = (tr_calc, Ok cells1) /\
    seed_or_restore read_lines restartFile start_time start_point cells1
      = (tr_seed, Ok (t0, cells2)) /\
    time_step t0 end_time intervals = Ok (t1, dt) /\
    step_loop write_frequency fast dt
              (remove_dups (cells_within_area cells2 x_area y_area))
              (images_folder toml_file) intervals (mkLoop cells2 t1 [])
      = (tr_loop, Ok st) /\
    0 < intervals /\
    m = ls_oil st /\
    tr = setup_events mesh_path toml_file ++ tr_calc ++ tr_seed
         ++ EWithinArea x_area y_area :: tr_loop
         ++ EPlot (fast =? 1) (ls_cells st) (ls_time st) (images_folder toml_file)
         :: closing_events toml_file end_time (ls_cells st) write_frequency intervals.
Proof.
  unfold find_and_plot, setup_events, closing_events.
  fold (experiment_folder toml_file). fold (images_folder toml_file).
  fold (restart_path toml_file).
  intros Hrun.
  destruct (load_mesh mesh_path factory) as [cells0|e] eqn:Hload;
    simpl in Hrun; [|discriminate Hrun].
  destruct (for_each calculate_body (positions cells0) cells0)
    as [tr_calc [cells1|e]] eqn:Hcalc; simpl in Hrun; [|discriminate Hrun].
  destruct (seed_or_restore read_lines restartFile start_time start_point cells1)
    as [tr_seed [[t0 cells2]|e]] eqn:Hseed; simpl in Hrun; [|discriminate Hrun].
  destruct (time_step t0 end_time intervals) as [[t1 dt]|e] eqn:Hdt;
    simpl in Hrun; [|discriminate Hrun].
  destruct (step_loop write_frequency fast dt
              (remove_dups (cells_within_area cells2 x_area y_area))
              (images_folder toml_file) intervals (mkLoop cells2 t1 []))
    as [tr_loop [st|e]] eqn:Hloop; simpl in Hrun; [|discriminate Hrun].
  destruct (intervals <=? 0) eqn:Hn; simpl in Hrun; [discriminate Hrun|].
  exists cells0, tr_calc, cells1, tr_seed, t0, cells2, t1, dt, tr_loop, st.
  repeat (split; [first [reflexivity | assumption]|]).
  split; [apply Z.leb_gt in Hn; lia|].
  destruct (write_frequency =? 0); simpl in Hrun; injection Hrun as <- <-;
    (split; [reflexivity|]); simpl; rewrite <- ?app_assoc; simpl;
    rewrite <- ?app_assoc; reflexivity.
Qed.

Lemma compute_body_trace (dt : num) (p : nat) (cells : list (cell num)) :
  Forall (fun e => is_loop_event e = true) (trace_of (compute_body dt p cells)).
Proof.
  unfold compute_body.
  destruct (cells !! p) as [c|]; [destruct (transport_capable c)|]; simpl;
    repeat constructor.
Qed.

Lemma commit_body_trace (p : nat) (cells : list (cell num)) :
  Forall (fun e => is_loop_event e = true) (trace_of (commit_body p cells)).
Proof.
  unfold commit_body.
  destruct (cells !! p) as [c|]; [destruct (transport_capable c)|]; simpl;
    repeat constructor.
Qed.

Lemma step_trace (dt : num) (cells : list (cell num)) :
  Forall (fun e => is_loop_event e = true) (trace_of (step dt cells)).
Proof.
  unfold step, step_in_order. apply trace_of_bind_Forall.
  - apply for_each_trace_Forall. intros p s. apply compute_body_trace.
  - intros cells1. apply for_each_trace_Forall. intros p s. apply commit_body_trace.
Qed.

Lemma loop_body_trace (write_frequency fast : Z) (dt : num) (area : list nat)
      (folder : string) (k : nat) (st : loop_state) :
  Forall (fun e => is_loop_event e = true)
         (trace_of (loop_body write_frequency fast dt area folder k st)).
Proof.
  unfold loop_body. apply trace_of_bind_Forall.
  - destruct (write_frequency =? 0); [constructor|].
    destruct (Z.of_nat k mod write_frequency =? 0); simpl; repeat constructor.
  - intros _. apply trace_of_bind_Forall; [apply step_trace|].
    intros cells1. constructor.
Qed.

(** One iteration of the loop that completes: the cells take one step, the
    time advances by [dt] and is rounded, and the dict gets its entry. *)
Lemma loop_body_value (write_frequency fast : Z) (dt : num) (area : list nat)
      (folder : string) (k : nat) (st st' : loop_state) :
  value_of (loop_body write_frequency fast dt area folder k st) = Ok st' ->
  exists cells1,
    value_of (step dt (ls_cells st)) = Ok cells1 /\
    st' = mkLoop cells1 (fround 4 (fadd (ls_time st) dt))
            (dict_set (ls_oil st) (fround 4 (fadd (ls_time st) dt))
                      (oil_in_area area cells1)).
Proof.
  unfold loop_body. rewrite value_of_bind.
  destruct (value_of (if write_frequency =? 0 then raise ZeroDivisionError
                      else if Z.of_nat k mod write_frequency =? 0
                           then plot fast (ls_cells st) (ls_time st) folder
                           else ret tt)) as [[]|e]; [|discriminate].
  rewrite value_of_bind.
  destruct (value_of (step dt (ls_cells st))) as [cells1|e]; [|discriminate].
  simpl. intros [= <-]. exists cells1. split; reflexivity.
Qed.

(** The dict after the loop is the dict before it with the entries of the
    trajectory assigned in step order. *)
Lemma loop_entries (write_frequency fast : Z) (dt : num) (area : list nat)
      (folder : string) (n : nat) :
  forall a st st',
    value_of (for_each (loop_body write_frequency fast dt area folder)
                       (seq a n) st) = Ok st' ->
    exists entries,
      trajectory dt area n (ls_time st) (ls_cells st) = Ok entries /\
      length entries = n /\
      ls_oil st' = fold_left (fun d kv => dict_set d (fst kv) (snd kv))
                             entries (ls_oil st).
Proof.
  induction n as [|n IH]; intros a st st'; simpl.
  - intros [= <-]. exists []. repeat split.
  - rewrite value_of_bind.
    destruct (value_of (loop_body write_frequency fast dt area folder a st))
      as [st1|e] eqn:Hbody; [|discriminate].
    apply loop_body_value in Hbody as (cells1 & Hstep & ->).
    intros Hrest. apply IH in Hrest as (entries & Htraj & Hlen & Hoil).
    simpl in Htraj, Hoil. rewrite Hstep, Htraj.
    eexists. split; [reflexivity|]. split; [simpl; lia|exact Hoil].
Qed.

(** Assigning to a key that equals no key of the dict appends the entry. *)
Lemma dict_set_fresh (d : list (num * num)) (k v : num) :
  forallb (fun kv => negb (feqb (fst kv) k)) d = true ->
  dict_set d k v = d ++ [(k, v)].
Proof.
  induction d as [|[k' v'] d IH]; simpl; [reflexivity|].
  intros Hall. apply andb_true_iff in Hall as [Hk Hd].
  apply negb_true_iff in Hk. rewrite Hk, IH by exact Hd. reflexivity.
Qed.

Lemma keys_distinct_snoc (d : list (num * num)) (k v : num)
      (rest : list (num * num)) :
  keys_distinct (d ++ (k, v) :: rest) = true ->
  forallb (fun kv => negb (feqb (fst kv) k)) d = true /\
  keys_distinct ((d ++ [(k, v)]) ++ rest) = true.
Proof.
  intros Hd. split.
  - induction d as [|[k' v'] d IH]; simpl in *; [reflexivity|].
    apply andb_true_iff in Hd as [Hk Hd].
    rewrite forallb_app in Hk. apply andb_true_iff in Hk as [_ Hk].
    simpl in Hk. apply andb_true_iff in Hk as [Hk _].
    rewrite Hk. apply IH, Hd.
  - rewrite <- app_assoc. exact Hd.
Qed.

Lemma fold_dict_set_distinct (entries : list (num * num)) :
  forall d, keys_distinct (d ++ entries) = true ->
    fold_left (fun d kv => dict_set d (fst kv) (snd kv)) entries d = d ++ entries.
Proof.
  induction entries as [|[k v] entries IH]; intros d Hd; simpl.
  - rewrite app_nil_r. reflexivity.
  - apply keys_distinct_snoc in Hd as [Hfresh Hd].
    rewrite dict_set_fresh by exact Hfresh.
    rewrite IH by exact Hd. rewrite <- app_assoc. reflexivity.
Qed.

(** What the seeding stage does to the outside: one read of the restart
    file, or one call of [initial_oil_distribution]. *)
Lemma seed_or_restore_trace (restartFile : option string) (start_time : num)
      (start_point : list num) (cells : list (cell num)) :
  trace_of (seed_or_restore read_lines restartFile start_time start_point cells)
  = if truthy_path restartFile then [EReadFile (default "" restartFile)]
    else [EInitialOil start_point].
Proof.
  unfold seed_or_restore. destruct (truthy_path restartFile); [|reflexivity].
  destruct (read_lines (default "" restartFile)) as [[|first rest]|e];
    try reflexivity.
  simpl. destruct (float_of_string first); [|reflexivity].
  destruct (restore_lines rest cells); reflexivity.
Qed.

Lemma calculate_body_trace (p : nat) (cells : list (cell num)) :
  Forall (fun e => is_within_area e = false /\ is_step_event e = false /\
                   is_seed_event e = false /\ is_read_event e = false)
         (trace_of (calculate_body p cells)).
Proof.
  unfold calculate_body.
  destruct (cells !! p) as [c|]; [destruct (transport_capable c)|]; simpl;
    repeat constructor.
Qed.


End RunFacts.

(** ** Runs on the example mesh *)



(** ** Seeding, or restoring a snapshot *)

Section RestartFacts.
Context {num : Type} `{!PyNum num} `{!PyBuiltins} `{!MeshOps num}.
Variable read_lines : string -> result (list string).

Lemma filter_none {A} (f : A -> bool) (l : list A) :
  Forall (fun x => f x = false) l -> List.filter f l = [].
Proof.
  induction 1 as [|x l Hx _ IH]; simpl; [reflexivity|]. rewrite Hx. exact IH.
Qed.

(** A line of a snapshot that is restored names a cell and an amount, and
    the cell it names is the only one that changes. *)
Lemma restore_line_ok (cells cells' : list (cell num)) (line : string) :
  restore_line cells line = Ok cells' ->
  exists index_s oil_amount_s i a p,
    split_on ";" line = [index_s; oil_amount_s] /\
    int_of_string index_s = Some i /\
    float_of_string oil_amount_s = Some a /\
    py_index (length cells) i = Some p /\
    cells' = alter (fun c => set_oil_amount c a) p cells.
Proof.
  unfold restore_line.
  destruct (split_on ";" line) as [|index_s [|oil_amount_s [|? ?]]];
    try discriminate.
  destruct (float_of_string oil_amount_s) as [a|] eqn:Ha; [|discriminate].
  destruct (int_of_string index_s) as [i|] eqn:Hi; [|discriminate].
  destruct (py_index (length cells) i) as [p|] eqn:Hp; [|discriminate].
  intros [= <-]. exists index_s, oil_amount_s, i, a, p. repeat split; assumption.
Qed.

Lemma seed_or_restore_restart (restartFile : option string) (start_time : num)
      (start_point : list num) (cells cells' : list (cell num)) (t : num) :
  truthy_path restartFile = true ->
  value_of (seed_or_restore read_lines restartFile start_time start_point cells)
    = Ok (t, cells') ->
  exists first rest,
    read_lines (default "" restartFile) = Ok (first :: rest) /\
    float_of_string first = Some t /\
    restore_lines rest cells = Ok cells'.
Proof.
  intros Htruthy. unfold seed_or_restore. rewrite Htruthy.
  destruct (read_lines (default "" restartFile)) as [[|first rest]|e];
    try discriminate.
  simpl. destruct (float_of_string first) as [t'|] eqn:Ht; [|discriminate].
  destruct (restore_lines rest cells) as [cells''|e] eqn:Hr; [|discriminate].
  simpl. intros [= <- <-]. exists first, rest. repeat split; assumption.
Qed.

Lemma seed_or_restore_seed (restartFile : option string) (start_time : num)
      (start_point : list num) (cells : list (cell num)) :
  truthy_path restartFile = false ->
  seed_or_restore read_lines restartFile start_time start_point cells
  = ([EInitialOil start_point],
     Ok (start_time, initial_oil_distribution cells start_point)).
Proof. intros Hfalsy. unfold seed_or_restore. rewrite Hfalsy. reflexivity. Qed.

Lemma loop_events_not_seed (tr : list (event num)) :
  Forall (fun e => is_loop_event e = true) tr ->
  List.filter is_seed_event tr = [] /\ List.filter is_read_event tr = [].
Proof.
  intros Hloop. split; apply filter_none; eapply Forall_impl; try exact Hloop;
    intros [] He; simpl in *; congruence.
Qed.



(** C7.  The time step is the span of the run divided by the number of
    intervals, rounded to 6 decimals; when the start time equals the end
    time the start time is first set to 0, so that the time step is the end
    time divided by the number of intervals, rounded to 6 decimals. *)
Theorem time_step_rounded (start_time end_time : num) (intervals : Z) :
  intervals <> 0 ->
  fsub end_time fzero = end_time ->
  time_step start_time end_time intervals =
    if feqb start_time end_time
    then Ok (fzero, fround 6 (fdiv end_time (of_int intervals)))
    else Ok (start_time,
             fround 6 (fdiv (fsub end_time start_time) (of_int intervals))).
Proof.
  intros Hn Hsub. unfold time_step.
  apply Z.eqb_neq in Hn. rewrite Hn, Hsub. reflexivity.
Qed.


End RestartFacts.

(** ** Restarts on the example mesh *)




Lemma time_step_rounded_witness :
  @time_step Q QInstance.QNum 0%Q 1%Q 2 = Ok (0%Q, (1 # 2)%Q) /\
  @time_step Q QInstance.QNum 1%Q 1%Q 4 = Ok (0%Q, (1 # 4)%Q).
Proof.
  split.
  - rewrite (@time_step_rounded Q QInstance.QNum 0%Q 1%Q 2); [|lia|reflexivity].
    vm_compute. reflexivity.
  - rewrite (@time_step_rounded Q QInstance.QNum 1%Q 1%Q 4); [|lia|reflexivity].
    vm_compute. reflexivity.
Defined.


(** ** The configuration reader *)

Module ConfigFacts.
Import Config.

Section Checks.
Variable os_path_exists : tval -> result bool.
Variable toml_load : string -> result table.
Variable list_le : list tval -> list tval -> result bool.

Local Abbreviation readConfig := (readConfig os_path_exists toml_load list_le).
Local Abbreviation readConfig_locals :=
  (readConfig_locals os_path_exists toml_load list_le).

Local Arguments truthy : simpl never.

Lemma rbind_ok {A B} (r : result A) (k : A -> result B) (b : B) :
  rbind r k = Ok b -> exists a, r = Ok a /\ k a = Ok b.
Proof.
  destruct r as [a|e]; simpl; [|discriminate]. intros Hk. exists a. split; auto.
Qed.

Ltac step_reader H :=
  match type of H with
  | rbind ?r ?k = Ok _ =>
      let a := fresh "a" in
      let Ha := fresh "Ha" in
      apply rbind_ok in H as (a & Ha & H)
  | (if ?c then _ else _) = Ok _ =>
      destruct c; [discriminate H|]
  end.

Lemma readConfig_locals_parsed (name : string) (cfg : table) (loc : locals) :
  readConfig_locals name = Ok (cfg, loc) -> toml_load name = Ok cfg.
Proof.
  unfold Config.readConfig_locals. intros Hread.
  step_reader Hread. step_reader Hread. step_reader Hread.
  rename a0 into config, Ha0 into Hload.
  repeat step_reader Hread.
  injection Hread as <- _. exact Hload.
Qed.


(** C10.  When [readConfig] returns, what it returns is the parsed file as
    [toml.load] gave it: the values it falls back to stay in its local
    variables. *)
Theorem readConfig_returns_parsed (name : string) (cfg : table) :
  readConfig name = Ok cfg ->
  toml_load name = Ok cfg /\ exists loc, readConfig_locals name = Ok (cfg, loc).
Proof.
  unfold Config.readConfig.
  destruct (readConfig_locals name) as [[config loc]|e] eqn:Hlocals;
    [|discriminate].
  intros [= <-]. split; [|exists loc; reflexivity].
  eapply readConfig_locals_parsed, Hlocals.
Qed.

End Checks.



(** The file "good.toml": what is returned has [writeFrequency] 0 and an empty
    [logName], while the local variables hold -1000 and "logfile.log". *)
Lemma readConfig_returns_parsed_witness :
  disk_load "good.toml" = Ok good_toml /\
  readConfig_locals disk_exists disk_load no_list_le "good.toml"
  = Ok (good_toml, mkLocals (TInt (-1000)) (TInt 0) (TStr "logfile.log")).
Proof.
  destruct (readConfig_returns_parsed disk_exists disk_load no_list_le
              "good.toml" good_toml eq_refl) as [Hload [loc Hloc]].
  split; [exact Hload|]. reflexivity.
Defined.
End ConfigFacts.

(** ** Runs that do not complete *)

Section RunEdges.
Context {num : Type} `{!PyNum num} `{!PyBuiltins} `{!MeshOps num}.
Variable read_lines : string -> result (list string).

(** A run whose first stages succeed, in terms of its step loop. *)
Lemma find_and_plot_stages (mesh_path : string) (start_time end_time : num)
      (intervals write_frequency : Z) (start_point : list num)
      (factory : cell_factory) (x_area y_area : list num)
      (restartFile toml_file : option string) (fast : Z)
      (cells0 cells1 cells2 : list (cell num)) (tr_calc tr_seed : list (event num))
      (t0 t1 dt : num) :
  load_mesh mesh_path factory = Ok cells0 ->
  for_each calculate_body (positions cells0) cells0 = (tr_calc, Ok cells1) ->
  seed_or_restore read_lines restartFile start_time start_point cells1
    = (tr_seed, Ok (t0, cells2)) ->
  time_step t0 end_time intervals = Ok (t1, dt) ->
  find_and_plot read_lines mesh_path start_time end_time intervals
                write_frequency start_point factory x_area y_area
                restartFile toml_file fast
  = let loop := step_loop write_frequency fast dt
                  (remove_dups (cells_within_area cells2 x_area y_area))
                  (images_folder toml_file) intervals (mkLoop cells2 t1 []) in
    (setup_events mesh_path toml_file ++ tr_calc ++ tr_seed
       ++ EWithinArea x_area y_area :: trace_of loop
       ++ match value_of loop with
          | Ok st =>
              EPlot (fast =? 1) (ls_cells st) (ls_time st) (images_folder toml_file)
              :: (if intervals <=? 0 then []
                  else closing_events toml_file end_time (ls_cells st)
                         write_frequency intervals)
          | Raise _ => []
          end,
     match value_of loop with
     | Ok st => if intervals <=? 0 then Raise UnboundLocalError else Ok (ls_oil st)
     | Raise e => Raise e
     end).
Proof.
  intros Hload Hcalc Hseed Hdt.
  unfold find_and_plot, setup_events, closing_events.
  fold (experiment_folder toml_file). fold (images_folder toml_file).
  fold (restart_path toml_file).
  rewrite Hload. simpl. rewrite Hcalc. simpl. rewrite Hseed. simpl.
  rewrite Hdt. simpl.
  destruct (step_loop write_frequency fast dt
              (remove_dups (cells_within_area cells2 x_area y_area))
              (images_folder toml_file) intervals (mkLoop cells2 t1 []))
    as [tr_loop [st|e]]; simpl.
  - destruct (intervals <=? 0); simpl.
    + rewrite <- ?app_assoc. reflexivity.
    + destruct (write_frequency =? 0); simpl; rewrite <- ?app_assoc; simpl;
        rewrite <- ?app_assoc; reflexivity.
  - rewrite app_nil_r. reflexivity.
Qed.

Lemma step_loop_zero_frequency (fast : Z) (dt : num) (area : list nat)
      (folder : string) (intervals : Z) (st : loop_state) :
  0 < intervals ->
  step_loop 0 fast dt area folder intervals st = ([], Raise ZeroDivisionError).
Proof.
  intros Hn. unfold step_loop.
  destruct (Z.to_nat intervals) as [|k] eqn:Hk; [lia|]. reflexivity.
Qed.

Lemma step_loop_no_steps (write_frequency fast : Z) (dt : num) (area : list nat)
      (folder : string) (intervals : Z) (st : loop_state) :
  intervals <= 0 ->
  step_loop write_frequency fast dt area folder intervals st = ([], Ok st).
Proof.
  intros Hn. unfold step_loop.
  replace (Z.to_nat intervals) with 0%nat by lia. reflexivity.
Qed.

Lemma calculate_loop_filter (f : event num -> bool) (order : list nat)
      (cells : list (cell num)) :
  (forall p, f (ECalculate p) = false) ->
  List.filter f (trace_of (for_each calculate_body order cells)) = [].
Proof.
  intros Hf. apply filter_none, for_each_trace_Forall. intros p s.
  unfold calculate_body.
  destruct (s !! p) as [c|]; [destruct (transport_capable c)|]; simpl;
    repeat constructor. apply Hf.
Qed.

(** A run that returns was given a non-zero [write_frequency], and the last
    thing it did was to make the video: with [write_frequency] 0 the first
    step divides by zero, so the guard before [make_video] never fails in
    a run that got that far. *)
Theorem completed_run_makes_video (mesh_path : string) (start_time end_time : num)
      (intervals write_frequency : Z) (start_point : list num)
      (factory : cell_factory) (x_area y_area : list num)
      (restartFile toml_file : option string) (fast : Z)
      (tr : list (event num)) (m : list (num * num)) :
  find_and_plot read_lines mesh_path start_time end_time intervals
                write_frequency start_point factory x_area y_area
                restartFile toml_file fast = (tr, Ok m) ->
  write_frequency <> 0 /\
  exists before,
    tr = before ++ [EMakeVideo (experiment_folder toml_file ++ "/images")%string
                               write_frequency intervals].
Proof.
  intros Hrun.
  apply find_and_plot_ok in Hrun
    as (cells0 & tr_calc & cells1 & tr_seed & t0 & cells2 & t & dt & tr_loop & st
        & Hload & Hcalc & Hseed & Hdt & Hloop & Hn & -> & ->).
  assert (Hwf : write_frequency <> 0).
  { intros ->. rewrite step_loop_zero_frequency in Hloop by exact Hn.
    discriminate Hloop. }
  split; [exact Hwf|].
  unfold closing_events. apply Z.eqb_neq in Hwf. rewrite Hwf.
  exists (setup_events mesh_path toml_file ++ tr_calc ++ tr_seed
          ++ EWithinArea x_area y_area :: tr_loop
          ++ [EPlot (fast =? 1) (ls_cells st) (ls_time st) (images_folder toml_file);
              EWriteFile (restart_path toml_file)
                         (restart_lines end_time (ls_cells st))]).
  rewrite <- !app_assoc. simpl. rewrite <- !app_assoc. reflexivity.
Qed.

(** A run over no intervals does not return.  Once the mesh is loaded and
    seeded: with [intervals] 0 the time step divides by zero, before the
    area of interest is asked for; with a negative [intervals] no step is
    taken, the state is plotted once, and the run stops with
    [UnboundLocalError] without writing the snapshot. *)
Theorem no_intervals_no_result (mesh_path : string) (start_time end_time : num)
      (intervals write_frequency : Z) (start_point : list num)
      (factory : cell_factory) (x_area y_area : list num)
      (restartFile toml_file : option string) (fast : Z)
      (cells0 cells1 cells2 : list (cell num)) (t0 : num) :
  load_mesh mesh_path factory = Ok cells0 ->
  value_of (for_each calculate_body (positions cells0) cells0) = Ok cells1 ->
  value_of (seed_or_restore read_lines restartFile start_time start_point cells1)
    = Ok (t0, cells2) ->
  let outcome := find_and_plot read_lines mesh_path start_time end_time intervals
               write_frequency start_point factory x_area y_area
               restartFile toml_file fast in
  (intervals = 0 ->
   value_of outcome = Raise ZeroDivisionError /\
   List.filter is_within_area (trace_of outcome) = []) /\
  (intervals < 0 ->
   value_of outcome = Raise UnboundLocalError /\
   List.filter is_plot_event (trace_of outcome)
   = [EPlot (fast =? 1) cells2 (if feqb t0 end_time then fzero else t0)
            (images_folder toml_file)] /\
   List.filter is_step_event (trace_of outcome) = [] /\
   List.filter is_write_event (trace_of outcome) = []).
Proof.
  intros Hload Hcalc Hseed outcome. subst outcome.
  destruct (for_each calculate_body (positions cells0) cells0)
    as [tr_calc rc] eqn:Hc. simpl in Hcalc. subst rc.
  destruct (seed_or_restore read_lines restartFile start_time start_point cells1)
    as [tr_seed rs] eqn:Hs. simpl in Hseed. subst rs.
  assert (Hseed_tr := seed_or_restore_trace read_lines restartFile start_time
                        start_point cells1).
  rewrite Hs in Hseed_tr. simpl in Hseed_tr.
  assert (Hcalc_tr : forall f : event num -> bool,
             (forall p, f (ECalculate p) = false) -> List.filter f tr_calc = []).
  { intros f Hf.
    change tr_calc with (trace_of (tr_calc, Ok cells1 : result (list (cell num)))).
    rewrite <- Hc. apply calculate_loop_filter, Hf. }
  split.
  - intros ->. unfold find_and_plot.
    rewrite Hload. simpl. rewrite Hc. simpl. rewrite Hs. simpl.
    assert (Hdt : time_step t0 end_time 0 = Raise ZeroDivisionError).
    { unfold time_step. destruct (feqb t0 end_time); reflexivity. }
    rewrite Hdt. simpl. split; [reflexivity|].
    rewrite List.filter_app, Hcalc_tr by reflexivity.
    subst tr_seed. destruct (truthy_path restartFile); reflexivity.
  - intros Hn.
    assert (Hdt : time_step t0 end_time intervals
                  = Ok (if feqb t0 end_time then fzero else t0,
                        fround 6 (fdiv (fsub end_time
                                          (if feqb t0 end_time then fzero else t0))
                                       (of_int intervals)))).
    { unfold time_step. assert (Hz : (intervals =? 0) = false) by lia.
      rewrite Hz. destruct (feqb t0 end_time); reflexivity. }
    rewrite (find_and_plot_stages _ _ _ _ _ _ _ _ _ _ _ _ _ _ _ _ _ _ _ _
               Hload Hc Hs Hdt).
    rewrite step_loop_no_steps by lia.
    assert (Hle : (intervals <=? 0) = true) by lia.
    unfold trace_of, value_of. simpl. rewrite Hle.
    split; [reflexivity|].
    rewrite !List.filter_app. simpl. rewrite !Hcalc_tr by reflexivity.
    subst tr_seed. destruct (truthy_path restartFile); repeat split; reflexivity.
Qed.

End RunEdges.

(** ** Snapshots: what is written can be read back *)

Section SnapshotFacts.
Context {num : Type} `{!PyNum num} `{!PyBuiltins} `{!MeshOps num}.
Variable read_lines : string -> result (list string).

Lemma split_on_plain (s : string) :
  mentions ";" s = false -> split_on ";" s = [s].
Proof.
  induction s as [|c s IH]; simpl; [reflexivity|].
  intros Hs. apply orb_false_iff in Hs as [Hc Hs].
  rewrite Hc, IH by exact Hs. reflexivity.
Qed.

Lemma split_on_pair (a b : string) :
  mentions ";" a = false -> mentions ";" b = false ->
  split_on ";" (a ++ ";" ++ b) = [a; b].
Proof.
  intros Ha Hb. induction a as [|c a IH]; simpl in *.
  - rewrite split_on_plain by exact Hb. reflexivity.
  - apply orb_false_iff in Ha as [Hc Ha].
    rewrite Hc, IH by exact Ha. reflexivity.
Qed.

Lemma mentions_app (ch : ascii) (a b : string) :
  mentions ch (a ++ b) = mentions ch a || mentions ch b.
Proof.
  induction a as [|c a IH]; simpl; [reflexivity|].
  rewrite IH, orb_assoc. reflexivity.
Qed.

(** Restoring a line keeps every cell but for its [oil_amount], and the
    length of the cell sequence. *)
Lemma restore_line_frame (cells cells' : list (cell num)) (line : string) :
  restore_line cells line = Ok cells' ->
  length cells' = length cells /\
  forall p c, cells !! p = Some c ->
    exists a, cells' !! p = Some (set_oil_amount c a).
Proof.
  intros Hline.
  apply restore_line_ok in Hline as (idx & amt & i & a & q & _ & _ & _ & _ & ->).
  split; [apply length_alter|].
  intros p c Hp. destruct (decide (p = q)) as [->|Hne].
  - exists a. rewrite list_lookup_alter_eq, Hp. reflexivity.
  - exists (oil_amount c). rewrite list_lookup_alter_ne by congruence.
    rewrite Hp. destruct c; reflexivity.
Qed.

(** Restoring a snapshot changes nothing of the mesh but the [oil_amount]
    of its cells: the cell sequence keeps its length, and every cell its
    kind, index, geometry, neighbours and [oil_change]. *)
Theorem restore_lines_frame (lines : list string) :
  forall cells cells',
    restore_lines lines cells = Ok cells' ->
    length cells' = length cells /\
    forall p c, cells !! p = Some c ->
      exists a, cells' !! p = Some (set_oil_amount c a).
Proof.
  induction lines as [|line lines IH]; intros cells cells'; simpl.
  - intros [= <-]. split; [reflexivity|]. intros p c Hp.
    exists (oil_amount c). rewrite Hp. destruct c; reflexivity.
  - destruct (restore_line cells line) as [cells1|e] eqn:Hline; [|discriminate].
    intros Hrest. apply restore_line_frame in Hline as [Hlen1 Hcells1].
    apply IH in Hrest as [Hlen Hcells]. split; [congruence|].
    intros p c Hp. destruct (Hcells1 p c Hp) as (a1 & Hp1).
    destruct (Hcells p _ Hp1) as (a & Hp'). exists a. rewrite Hp'. reflexivity.
Qed.

(** The lines of a snapshot, read back into a mesh of the same length. *)
Lemma restore_written (post : list (cell num)) :
  forall post0 done,
    length post0 = length post ->
    indexed_from (length done) post = true ->
    Forall reads_back post ->
    restore_lines (map restart_line post) (done ++ post0)
    = Ok (done ++ with_amounts_of post0 post).
Proof.
  induction post as [|c post IH]; intros post0 done Hlen Hidx Hback.
  - destruct post0; [|discriminate Hlen]. reflexivity.
  - destruct post0 as [|c0 post0]; [discriminate Hlen|].
    simpl in Hlen, Hidx. apply andb_true_iff in Hidx as [Hi Hidx].
    apply Z.eqb_eq in Hi.
    apply Forall_cons in Hback as [(Hint & Hfloat & Hsi & Hsf) Hback].
    assert (Hline : restore_line (done ++ c0 :: post0) (restart_line c)
                    = Ok ((done ++ [set_oil_amount c0 (oil_amount c)]) ++ post0)).
    { unfold restore_line, restart_line.
      rewrite split_on_pair.
      - rewrite Hfloat, Hint, Hi. unfold py_index.
        assert (Hlt : (Z.of_nat (length done)
                       <? Z.of_nat (length (done ++ c0 :: post0))) = true).
        { apply Z.ltb_lt. rewrite length_app. simpl. lia. }
        assert (Hge : (0 <=? Z.of_nat (length done)) = true) by lia.
        rewrite Hge, Hlt. simpl. rewrite Nat2Z.id.
        rewrite <- app_assoc. simpl. f_equal.
        change (alter (fun c1 => set_oil_amount c1 (oil_amount c)) (length done)
                      (done ++ c0 :: post0)
                = done ++ set_oil_amount c0 (oil_amount c) :: post0).
        rewrite alter_app_r_alt by lia. rewrite Nat.sub_diag. reflexivity.
      - exact Hsi.
      - rewrite mentions_app, Hsf. reflexivity. }
    simpl. rewrite Hline. rewrite IH.
    + rewrite <- app_assoc. reflexivity.
    + lia.
    + rewrite length_app. simpl.
      replace (length done + 1)%nat with (S (length done)) by lia. exact Hidx.
    + exact Hback.
Qed.

End SnapshotFacts.
